(** * Calendar merger: a shallow embedding of [index.js]

    The script fetches several iCalendar sources, expands the recurring events
    over a one-year window, puts every occurrence in one calendar and uploads
    the rendered calendar.  This file embeds the functions of [index.js]
    ([fetchCalendar], [adjustDate], [expandRecurringEvent],
    [createUrlSafeString], [mergeCalendars] and the main block) and proves
    properties of them.

    Conventions of the embedding.
    - A JavaScript [Date] is its time value, a number of milliseconds since the
      epoch, as a [Z]; the Dates that node-ical builds also carry the zone name
      of their ICS field in the property [tz].  Time values are taken inside
      the range of valid Dates.
    - A thrown exception or a rejected promise is the [Throw] case of [result].
    - The packages the script calls (rrule, moment-timezone, node-ical,
      ical-generator) are not part of the script: they are interfaces
      (type classes) here, with the laws their documentation states, and each
      one has a small instance below that makes the laws concrete and the
      script executable.
    - Strings are sequences of code units below 256. *)

From Stdlib Require Import ZArith List String Ascii Bool Lia Sorted.
Import ListNotations.

Open Scope string_scope.
Open Scope Z_scope.
Open Scope list_scope.

(** ** Exceptions *)

Inductive Failure : Type :=
| RequestFailed (url : string)        (* axios.get rejected *)
| IcsMalformed (text : string)        (* nodeIcal.async.parseICS rejected *)
| RuleMalformed (text : string)       (* RRule.parseString threw *)
| SinkRefused.                        (* s3Client.send rejected *)

Inductive result (A : Type) : Type :=
| Ok (a : A)
| Throw (e : Failure).
Arguments Ok {A} a.
Arguments Throw {A} e.

Definition bind {A B} (r : result A) (k : A -> result B) : result B :=
  match r with
  | Ok a => k a
  | Throw e => Throw e
  end.

Notation "x <- r ;; k" := (bind r (fun x => k))
  (at level 61, r at next level, right associativity).

Definition of_option {A} (o : option A) (e : Failure) : result A :=
  match o with
  | Some a => Ok a
  | None => Throw e
  end.

(** [f] on every element, in order, stopping at the first failure.  It is
    [await Promise.all(xs.map(f))] for the script: the array of the results,
    or a rejection when one of the promises rejects. *)
Fixpoint traverse {A B} (f : A -> result B) (xs : list A) : result (list B) :=
  match xs with
  | [] => Ok []
  | x :: rest =>
      y <- f x ;;
      ys <- traverse f rest ;;
      Ok (y :: ys)
  end.

(** [xs.forEach(body)] where the body updates a state [S] and may throw. *)
Fixpoint forEach {A S} (body : S -> A -> result S) (xs : list A) (s : S) : result S :=
  match xs with
  | [] => Ok s
  | x :: rest =>
      s' <- body s x ;;
      forEach body rest s'
  end.

(** ** Parsed calendar data *)

Record JsDate : Type := mkDate {
  time : Z;                 (* getTime() *)
  tz : option string        (* the property node-ical adds; absent on plain Dates *)
}.

(** [new Date(t)] *)
Definition plainDate (t : Z) : JsDate := {| time := t; tz := None |}.

(** One component of a parsed ICS text, as node-ical returns it.  [rrule] holds
    the rule object, present or not, by the text its [toString()] gives.  The
    script reads the dates of the components of type VEVENT only.  The type
    describes the records that have both dates: a VEVENT that node-ical
    returns without [start] or [end] (no DTSTART in the text) is outside it,
    and so is the TypeError that [event.start.tz] raises for such a record. *)
Record Component : Type := mkComponent {
  type : string;
  start : JsDate;
  end_ : JsDate;
  summary : option string;
  description : option string;
  location : option string;
  rrule : option string;
  others : list (string * string)   (* uid and the remaining own properties *)
}.

(** [{ ...event, start: s, end: e }] *)
Definition spread_start_end (event : Component) (s e : JsDate) : Component :=
  {| type := type event;
     start := s;
     end_ := e;
     summary := summary event;
     description := description event;
     location := location event;
     rrule := rrule event;
     others := others event |}.

(** The object [parseICS] resolves to: its own properties in enumeration
    order, keyed by component identifier. *)
Definition CalendarObject : Type := list (string * Component).

Definition Object_values (events : CalendarObject) : list Component :=
  map snd events.

(** ** The packages *)

(** rrule.  [between o after before inc] is
    [new RRule(o).between(after, before, inc)]; the script never passes [inc],
    whose default is [false].  The laws are the package's documentation of
    [between]: the occurrences of the rule between [after] and [before], in
    ascending order; [inc] says whether [after] and [before] themselves are
    returned when they are occurrences.  The options are opaque: besides
    [dtstart] they hold whatever the text gave (frequency, count, a [tzid]
    when the text names a zone), and how the package places the instants of
    a rule relative to its [dtstart] is not part of the interface. *)
Class RRulePkg : Type := {
  Options : Type;
  parseString : string -> option Options;       (* [None]: it throws *)
  set_dtstart : Options -> Z -> Options;        (* [o.dtstart = d] *)
  dtstart : Options -> option Z;
  occurs : Options -> Z -> Prop;                (* the recurrence set of the rule *)
  between : Options -> Z -> Z -> bool -> list Z;
  dtstart_set : forall o d, dtstart (set_dtstart o d) = Some d;
  between_ascending : forall o a b inc, StronglySorted Z.lt (between o a b inc);
  between_exclusive : forall o a b d,
      In d (between o a b false) <-> occurs o d /\ a < d < b;
  between_inclusive : forall o a b d,
      In d (between o a b true) <-> occurs o d /\ a <= d <= b
}.

(** moment-timezone, on time values.
    - [moment_tz t zone] is [moment.tz(new Date(t), zone).toDate()];
    - [startOf_day zone t] is [moment(t).tz(zone).startOf("day").toDate()];
    - [add_years zone n t] is [moment(t).tz(zone).add(n, "year").toDate()];
    - [endOf_day zone t] is [moment(t).tz(zone).endOf("day").toDate()].
    The law is the package's treatment of a Date: a Date names an instant, the
    moment made of it is that instant seen in the zone, and [toDate()] gives
    the instant back; only a text without an offset is read in the zone. *)
Class MomentPkg : Type := {
  moment_tz : Z -> string -> Z;
  startOf_day : string -> Z -> Z;
  add_years : string -> Z -> Z -> Z;
  endOf_day : string -> Z -> Z;
  moment_tz_instant : forall t zone, moment_tz t zone = t
}.

(** node-ical and ical-generator: the parser of ICS text and the renderer of
    the calendar that was built.  The calendar is kept as the data of the
    calls of [createEvent], in order.  ical-generator also gives every entry
    an identifier (UID) drawn at random and the time of its creation
    (DTSTAMP); they show in the rendered text only, and [cal_toString] is the
    rendering of one run, under the identifiers and times drawn in that run:
    nothing here compares the texts of two runs. *)
Record EventData : Type := mkEventData {
  ev_start : Z;
  ev_end : Z;
  ev_summary : option string;
  ev_description : option string;
  ev_location : option string
}.

Record ICalCalendar : Type := mkCalendar {
  cal_name : string;
  cal_events : list EventData
}.

Class IcsPkg : Type := {
  parseICS : string -> option CalendarObject;   (* [None]: it rejects *)
  cal_toString : ICalCalendar -> string
}.

(** [ical({ name })] and [cal.createEvent(data)]: the calendar keeps its
    entries in the order of the calls. *)
Definition ical (name : string) : ICalCalendar :=
  {| cal_name := name; cal_events := [] |}.

Definition createEvent (cal : ICalCalendar) (data : EventData) : ICalCalendar :=
  {| cal_name := cal_name cal; cal_events := cal_events cal ++ [data] |}.

(** ** What a run receives from outside *)

(** The variables of [yepcode.env], the answers of the network and the
    readings of the system clock.  [clock k] is the value of the k-th call of
    [moment()] made by the run (the script makes two, one after the other). *)
Record Env : Type := mkEnv {
  PERSONAL_CALENDAR_URL : string;
  WORK_CALENDAR_URL : string;
  DIGITALOCEAN_SPACES_BUCKET : string;
  axios_get : string -> option string;          (* [response.data]; [None]: rejected *)
  clock : nat -> Z;
  s3_accepts : bool                             (* does the Space accept the upload *)
}.

Record PutObjectCommand : Type := mkPut {
  Bucket : string;
  Key : string;
  Body : string;
  ACL : string;
  ContentType : string
}.

Inductive LogLine : Type :=
| LogUploaded
| LogKey (key : string)
| LogError (e : Failure).

(** What a run leaves behind: the commands sent to the Space, in order, and
    the lines written to the console. *)
Record Outcome : Type := mkOutcome {
  sink : list PutObjectCommand;
  console : list LogLine
}.

(** ** The script *)

Definition calendarName : string := "JohnDoe is EXTRAORDINARILY BUSY".
Definition calendarTimezone : string := "Europe/Madrid".

Definition calendarInputUrls (env : Env) : list string :=
  [PERSONAL_CALENDAR_URL env; WORK_CALENDAR_URL env].

(** *** createUrlSafeString *)

Definition in_range (lo hi : ascii) (c : ascii) : bool :=
  ((nat_of_ascii lo <=? nat_of_ascii c) && (nat_of_ascii c <=? nat_of_ascii hi))%nat.

(** [String.prototype.toLowerCase] on code units below 256: the letters A-Z
    and the capital letters of Latin-1 (U+00C0-U+00DE without U+00D7) move up
    by 32, every other unit stays.  Strings with units from 256 on are outside
    the model; there lower-casing can give an ASCII letter (U+212A gives k)
    or two units for one (U+0130).  What is proved about keys is stated over
    the lower-cased name, or does not depend on how names are lower-cased. *)
Definition lower_unit (c : ascii) : ascii :=
  let n := nat_of_ascii c in
  if in_range "A" "Z" c then ascii_of_nat (n + 32)
  else if ((192 <=? n) && (n <=? 222) && negb (n =? 215))%nat then ascii_of_nat (n + 32)
  else c.

Fixpoint toLowerCase (s : string) : string :=
  match s with
  | EmptyString => EmptyString
  | String c rest => String (lower_unit c) (toLowerCase rest)
  end.

(** The class [[a-z0-9]] and its complement [[^a-z0-9]]. *)
Definition az09 (c : ascii) : bool := in_range "a" "z" c || in_range "0" "9" c.
Definition not_az09 (c : ascii) : bool := negb (az09 c).

Definition is_hyphen (c : ascii) : bool := Ascii.eqb c "-".

(** [s.replace(/[^a-z0-9]+/g, "-")]: the scan goes left to right; [matching]
    says that the unit before belongs to the match in progress, which the
    greedy [+] extends as far as the class allows; the replacement is written
    where a match begins. *)
Fixpoint replace_runs (matching : bool) (s : string) : string :=
  match s with
  | EmptyString => EmptyString
  | String c rest =>
      if not_az09 c then
        if matching then replace_runs true rest
        else String "-" (replace_runs true rest)
      else String c (replace_runs false rest)
  end.

Fixpoint all_hyphens (s : string) : bool :=
  match s with
  | EmptyString => true
  | String c rest => is_hyphen c && all_hyphens rest
  end.

(** [s.replace(/^-+|-+$/g, "")]: the first alternative matches at the start
    of the string only and takes every leading hyphen; the second matches a
    run of hyphens that reaches the end of the string. *)
Fixpoint drop_leading_hyphens (s : string) : string :=
  match s with
  | EmptyString => EmptyString
  | String c rest => if is_hyphen c then drop_leading_hyphens rest else s
  end.

Fixpoint drop_trailing_hyphens (s : string) : string :=
  match s with
  | EmptyString => EmptyString
  | String c rest =>
      if is_hyphen c && all_hyphens rest then EmptyString
      else String c (drop_trailing_hyphens rest)
  end.

Definition strip_hyphens (s : string) : string :=
  drop_trailing_hyphens (drop_leading_hyphens s).

Definition createUrlSafeString (str : string) : string :=
  strip_hyphens (replace_runs false (toLowerCase str)).

(** The key of the uploaded object: [`${createUrlSafeString(calendarName)}.ics`]. *)
Definition urlSafeKey : string := (createUrlSafeString calendarName ++ ".ics")%string.

Section Script.

Context {rr : RRulePkg} {mo : MomentPkg} {ics : IcsPkg}.

(** *** fetchCalendar *)

Definition fetchCalendar (env : Env) (url : string) : result CalendarObject :=
  data <- of_option (axios_get env url) (RequestFailed url) ;;
  of_option (parseICS data) (IcsMalformed data).

(** *** adjustDate *)

Definition adjustDate (date : Z) (timezone : string) : Z :=
  moment_tz date timezone.

(** *** expandRecurringEvent

    [moment(d).toDate()] copies the Date [d]; [moment(b).diff(moment(a))] is
    the difference of the time values; [m.add(n, "milliseconds")] adds [n] to
    the time value. *)
Definition expandRecurringEvent (event : Component) (rangeStart rangeEnd : Z)
  : result (list Component) :=
  match rrule event with
  | None => Ok [event]
  | Some text =>
      rruleOptions <- of_option (parseString text) (RuleMalformed text) ;;
      let rruleOptions := set_dtstart rruleOptions (time (start event)) in
      let dates := between rruleOptions rangeStart rangeEnd false in
      let duration := time (end_ event) - time (start event) in
      Ok (map (fun date =>
                 spread_start_end event (plainDate date) (plainDate (date + duration)))
              dates)
  end.

(** *** mergeCalendars *)

(** [tz || fallback]: an absent or empty zone name is falsy. *)
Definition or_default (zone : option string) (fallback : string) : string :=
  match zone with
  | Some z => if (z =? "")%string then fallback else z
  | None => fallback
  end.

(** The date range: two readings of the clock, the first for [start] and the
    second for [end]. *)
Definition window (env : Env) : Z * Z :=
  (startOf_day calendarTimezone (clock env 0%nat),
   endOf_day calendarTimezone (add_years calendarTimezone 1 (clock env 1%nat))).

(** The argument of [cal.createEvent] in the inner loop. *)
Definition eventData (event expandedEvent : Component) : EventData :=
  let adjustedStart :=
    adjustDate (time (start expandedEvent)) (or_default (tz (start event)) calendarTimezone) in
  let adjustedEnd :=
    adjustDate (time (end_ expandedEvent)) (or_default (tz (end_ event)) calendarTimezone) in
  {| ev_start := adjustedStart;
     ev_end := adjustedEnd;
     ev_summary := summary expandedEvent;
     ev_description := description expandedEvent;
     ev_location := location expandedEvent |}.

(** The body of the outer [forEach]. *)
Definition processEvent (rangeStart rangeEnd : Z) (cal : ICalCalendar) (event : Component)
  : result ICalCalendar :=
  if (type event =? "VEVENT")%string then
    expandedEvents <- expandRecurringEvent event rangeStart rangeEnd ;;
    Ok (fold_left (fun cal expandedEvent => createEvent cal (eventData event expandedEvent))
                  expandedEvents cal)
  else Ok cal.

(** [mergeCalendars] up to its last line: the calendar that was filled. *)
Definition mergedCalendar (env : Env) : result ICalCalendar :=
  calendarEventsArray <- traverse (fetchCalendar env) (calendarInputUrls env) ;;
  let cal := ical calendarName in
  let rangeStart := fst (window env) in
  let rangeEnd := snd (window env) in
  forEach (processEvent rangeStart rangeEnd)
          (List.concat (map Object_values calendarEventsArray)) cal.

Definition mergeCalendars (env : Env) : result string :=
  cal <- mergedCalendar env ;;
  Ok (cal_toString cal).

(** *** The main block *)

Definition main (env : Env) : Outcome :=
  match mergeCalendars env with
  | Ok mergedCalendar =>
      let putObjectCommand :=
        {| Bucket := DIGITALOCEAN_SPACES_BUCKET env;
           Key := urlSafeKey;
           Body := mergedCalendar;
           ACL := "public-read";
           ContentType := "text/calendar" |} in
      if s3_accepts env then
        {| sink := [putObjectCommand]; console := [LogUploaded; LogKey urlSafeKey] |}
      else
        {| sink := [putObjectCommand]; console := [LogError SinkRefused] |}
  | Throw error =>
      {| sink := []; console := [LogError error] |}
  end.

(** ** The components of the specification

    The specification describes the pipeline as three components, expand,
    normalize and merge.  The script has no function for the last two; the
    definitions below follow the specification's words and are compared with
    the script in the theorems. *)

(** The normalized occurrences one raw record contributes: none for a record
    that is not an event. *)
Definition occurrences_of_event (rangeStart rangeEnd : Z) (event : Component)
  : result (list EventData) :=
  if (type event =? "VEVENT")%string then
    expanded <- expandRecurringEvent event rangeStart rangeEnd ;;
    Ok (map (eventData event) expanded)
  else Ok [].

(** The occurrences of one source, in raw-event order. *)
Definition occurrences_of_source (rangeStart rangeEnd : Z) (events : CalendarObject)
  : result (list EventData) :=
  perEvent <- traverse (occurrences_of_event rangeStart rangeEnd) (Object_values events) ;;
  Ok (List.concat perEvent).

(** [merge]: the concatenation of the per-source sequences, under the
    configured name. *)
Definition spec_merge (perSource : list (list EventData)) : ICalCalendar :=
  {| cal_name := calendarName; cal_events := List.concat perSource |}.

(** The three ways a stage fails: a request is rejected, an ICS text does not
    parse, the rule text of an event does not parse. *)
Definition request_fails (env : Env) : Prop :=
  exists url, In url (calendarInputUrls env) /\ axios_get env url = None.

Definition ics_fails (env : Env) : Prop :=
  exists url data,
    In url (calendarInputUrls env) /\
    axios_get env url = Some data /\ parseICS data = None.

Definition rule_fails (env : Env) : Prop :=
  exists url data events event text,
    In url (calendarInputUrls env) /\
    axios_get env url = Some data /\ parseICS data = Some events /\
    In event (Object_values events) /\
    type event = "VEVENT" /\
    rrule event = Some text /\ parseString text = None.

End Script.

(** The zone a date field carries: the [tz] property when it is a name. *)
Definition carried_zone (d : JsDate) : option string :=
  match tz d with
  | Some z => if (z =? "")%string then None else Some z
  | None => None
  end.


(** The slug of the specification: the lower-cased name is cut at every unit
    outside [[a-z0-9]], the empty pieces are dropped, and the pieces left are
    joined by single hyphens. *)
Fixpoint fields (sep : ascii -> bool) (s : string) : list string :=
  match s with
  | EmptyString => [EmptyString]
  | String c rest =>
      if sep c then EmptyString :: fields sep rest
      else match fields sep rest with
           | w :: ws => String c w :: ws
           | [] => [String c EmptyString]
           end
  end.

Definition nonempty (w : string) : bool := negb (w =? "")%string.

Definition words (sep : ascii -> bool) (s : string) : list string :=
  filter nonempty (fields sep s).


(** Auxiliary notions for the comparison of the two. *)
Definition starts_with (sep : ascii -> bool) (s : string) : bool :=
  match s with
  | EmptyString => false
  | String c _ => sep c
  end.

Definition hyphenated (ws : list string) : string :=
  match ws with
  | [] => EmptyString
  | _ :: _ => String "-" (String.concat "-" ws)
  end.

Fixpoint all_units (p : ascii -> bool) (s : string) : bool :=
  match s with
  | EmptyString => true
  | String c rest => p c && all_units p rest
  end.


(** ** Instances of the packages

    Small, executable stand-ins: they show that the laws of the interfaces can
    be met, and the script runs on them in the examples. *)

(** Rules of the form [FREQ=DAILY;COUNT=n]: [n] instants one day apart, the
    first one at [dtstart]. *)
Module DailyRules.

Record options : Type := mkOptions { from : option Z; count : nat }.

Fixpoint digits (s : string) (acc : nat) : option nat :=
  match s with
  | EmptyString => Some acc
  | String c rest =>
      if in_range "0" "9" c
      then digits rest (10 * acc + (nat_of_ascii c - 48))%nat
      else None
  end.

Definition parse (text : string) : option options :=
  let key := "FREQ=DAILY;COUNT=" in
  if prefix key text then
    match substring (length key) (length text - length key) text with
    | EmptyString => None
    | ds => option_map (mkOptions None) (digits ds 0)
    end
  else None.

Definition with_from (o : options) (d : Z) : options :=
  {| from := Some d; count := count o |}.

Fixpoint steps (d : Z) (n : nat) : list Z :=
  match n with
  | O => []
  | S k => d :: steps (d + 86400000) k
  end.

Definition dates (o : options) : list Z :=
  match from o with
  | Some d => steps d (count o)
  | None => []
  end.

Definition within (inc : bool) (a b d : Z) : bool :=
  if inc then (a <=? d) && (d <=? b) else (a <? d) && (d <? b).

Definition between (o : options) (a b : Z) (inc : bool) : list Z :=
  filter (within inc a b) (dates o).

End DailyRules.

(** A zone at a fixed offset of one hour east of UTC, with the proleptic
    Gregorian calendar: what Europe/Madrid is outside summer time. *)
Module FixedOffset.

Definition msPerDay : Z := 86400000.
Definition offset : Z := 3600000.

(** Day number (days since 1970-01-01) of a civil date, and back. *)
Definition days_from_civil (y m d : Z) : Z :=
  let y' := if m <=? 2 then y - 1 else y in
  let era := y' / 400 in
  let yoe := y' - era * 400 in
  let mp := if m <=? 2 then m + 9 else m - 3 in
  let doy := (153 * mp + 2) / 5 + d - 1 in
  let doe := yoe * 365 + yoe / 4 - yoe / 100 + doy in
  era * 146097 + doe - 719468.

Definition civil_from_days (z : Z) : Z * Z * Z :=
  let z := z + 719468 in
  let era := z / 146097 in
  let doe := z - era * 146097 in
  let yoe := (doe - doe / 1460 + doe / 36524 - doe / 146096) / 365 in
  let doy := doe - (365 * yoe + yoe / 4 - yoe / 100) in
  let mp := (5 * doy + 2) / 153 in
  let d := doy - (153 * mp + 2) / 5 + 1 in
  let m := if mp <? 10 then mp + 3 else mp - 9 in
  let y := yoe + era * 400 in
  ((if m <=? 2 then y + 1 else y), m, d).

Definition days_in_month (y m : Z) : Z :=
  (if m =? 12 then days_from_civil (y + 1) 1 1 else days_from_civil y (m + 1) 1)
  - days_from_civil y m 1.

Definition startOf_day (zone : string) (t : Z) : Z :=
  let wall := t + offset in
  wall - wall mod msPerDay - offset.

Definition endOf_day (zone : string) (t : Z) : Z :=
  startOf_day zone t + msPerDay - 1.

(** The same wall-clock time [n] years later, on the last day of the month
    when the month is shorter there. *)
Definition add_years (zone : string) (n : Z) (t : Z) : Z :=
  let wall := t + offset in
  let '(y, m, d) := civil_from_days (wall / msPerDay) in
  let d' := Z.min d (days_in_month (y + n) m) in
  days_from_civil (y + n) m d' * msPerDay + wall mod msPerDay - offset.

(** A Date names an instant already: giving it a zone leaves it where it is. *)
Definition moment_tz (t : Z) (zone : string) : Z := t.

End FixedOffset.

(** Two sample ICS texts, by name, and a one-line rendering. *)
Module Samples.

Definition meeting : Component :=
  {| type := "VEVENT";
     start := {| time := 1704448800000; tz := Some "Europe/London" |};
     end_ := {| time := 1704452400000; tz := None |};
     summary := Some "Meeting";
     description := None;
     location := Some "Room 1";
     rrule := None;
     others := [("uid", "a-1")] |}.

Definition standup : Component :=
  {| type := "VEVENT";
     start := {| time := 1709280000000; tz := None |};
     end_ := {| time := 1709280900000; tz := None |};
     summary := Some "Standup";
     description := Some "Daily";
     location := None;
     rrule := Some "FREQ=DAILY;COUNT=3";
     others := [("uid", "b-1")] |}.

Definition broken : Component :=
  {| type := "VEVENT";
     start := {| time := 1709280000000; tz := None |};
     end_ := {| time := 1709280900000; tz := None |};
     summary := Some "Broken";
     description := None;
     location := None;
     rrule := Some "FREQ=SOMETIMES";
     others := [] |}.

Definition timezone : Component :=
  {| type := "VTIMEZONE";
     start := plainDate 0;
     end_ := plainDate 0;
     summary := None;
     description := None;
     location := None;
     rrule := None;
     others := [("tzid", "Europe/Madrid")] |}.

Definition personal : CalendarObject := [("tz", timezone); ("a-1", meeting)].
Definition work : CalendarObject := [("b-1", standup)].
Definition faulty : CalendarObject := [("c-1", broken)].

Definition parse (text : string) : option CalendarObject :=
  if (text =? "personal.ics")%string then Some personal
  else if (text =? "work.ics")%string then Some work
  else if (text =? "broken.ics")%string then Some faulty
  else None.

Definition render (cal : ICalCalendar) : string :=
  String.concat ";"
    (cal_name cal
     :: map (fun d => match ev_summary d with Some s => s | None => "" end)
            (cal_events cal)).

Definition get (url : string) : option string :=
  if (url =? "https://example.org/personal")%string then Some "personal.ics"
  else if (url =? "https://example.org/work")%string then Some "work.ics"
  else if (url =? "https://example.org/broken")%string then Some "broken.ics"
  else if (url =? "https://example.org/garbage")%string then Some "not a calendar"
  else None.

(** A run on 2024-03-01, 09:00 in Madrid. *)
Definition env : Env :=
  {| PERSONAL_CALENDAR_URL := "https://example.org/personal";
     WORK_CALENDAR_URL := "https://example.org/work";
     DIGITALOCEAN_SPACES_BUCKET := "calendars";
     axios_get := get;
     clock := fun _ => 1709280000000;
     s3_accepts := true |}.

(** A reminder: an event that ends when it starts. *)
Definition reminder : Component :=
  {| type := "VEVENT";
     start := {| time := 1704448800000; tz := None |};
     end_ := {| time := 1704448800000; tz := None |};
     summary := Some "Reminder";
     description := None;
     location := None;
     rrule := None;
     others := [("uid", "a-2")] |}.

(** The stand-up moved to the instant [d]. *)
Definition standup_at (d : Z) : Component :=
  spread_start_end standup (plainDate d) (plainDate (d + 900000)).

Definition entry (s e : Z) (title : string) (about place : option string) : EventData :=
  {| ev_start := s; ev_end := e; ev_summary := Some title;
     ev_description := about; ev_location := place |}.

(** What the two sources contribute to the run [env]. *)
Definition expected : list (list EventData) :=
  [ [entry 1704448800000 1704452400000 "Meeting" None (Some "Room 1")];
    [entry 1709280000000 1709280900000 "Standup" (Some "Daily") None;
     entry 1709366400000 1709367300000 "Standup" (Some "Daily") None;
     entry 1709452800000 1709453700000 "Standup" (Some "Daily") None] ].

(** The same day an hour later, another bucket, a Space that refuses. *)
Definition env_later : Env :=
  {| PERSONAL_CALENDAR_URL := "https://example.org/personal";
     WORK_CALENDAR_URL := "https://example.org/work";
     DIGITALOCEAN_SPACES_BUCKET := "backup";
     axios_get := get;
     clock := fun k => 1709283600000 + Z.of_nat k;
     s3_accepts := false |}.

(** The work calendar holds an event whose rule text does not parse. *)
Definition env_broken : Env :=
  {| PERSONAL_CALENDAR_URL := "https://example.org/personal";
     WORK_CALENDAR_URL := "https://example.org/broken";
     DIGITALOCEAN_SPACES_BUCKET := "calendars";
     axios_get := get;
     clock := fun _ => 1709280000000;
     s3_accepts := true |}.

(** A run that reads the clock at 23:59:59.999 on 2024-01-15 in Madrid and
    again one millisecond later. *)
Definition env_midnight : Env :=
  {| PERSONAL_CALENDAR_URL := "https://example.org/personal";
     WORK_CALENDAR_URL := "https://example.org/work";
     DIGITALOCEAN_SPACES_BUCKET := "calendars";
     axios_get := get;
     clock := fun k => match k with O => 1705359599999 | S _ => 1705359600000 end;
     s3_accepts := true |}.

End Samples.

(** ** Notions for the further properties *)

(** The units of a key: [[a-z0-9]] and the hyphen. *)
Definition url_safe_unit (c : ascii) : bool := az09 c || is_hyphen c.

Fixpoint ends_with (p : ascii -> bool) (s : string) : bool :=
  match s with
  | EmptyString => false
  | String c rest =>
      match rest with
      | EmptyString => p c
      | String _ _ => ends_with p rest
      end
  end.

Fixpoint no_double_hyphen (s : string) : bool :=
  match s with
  | EmptyString => true
  | String c rest =>
      negb (is_hyphen c && starts_with is_hyphen rest) && no_double_hyphen rest
  end.

(** [event.type === "VEVENT"] *)
Definition is_vevent (event : Component) : bool := (type event =? "VEVENT")%string.

(** A word of a key: a non-empty run of units of [[a-z0-9]]. *)
Definition good_word (w : string) : Prop := w <> EmptyString /\ all_units az09 w = true.

(** A run whose two sources are the personal calendar: no event has a rule. *)
Definition env_without_rules : Env :=
  {| PERSONAL_CALENDAR_URL := "https://example.org/personal";
     WORK_CALENDAR_URL := "https://example.org/personal";
     DIGITALOCEAN_SPACES_BUCKET := "calendars";
     axios_get := Samples.get;
     clock := fun _ => 1709280000000;
     s3_accepts := true |}.



(** A parser that also knows a text with the reminder, and a run on two
    sources with that text. *)
Definition reminders : IcsPkg :=
  {| parseICS := fun text =>
       if (text =? "reminders.ics")%string then Some [("a-2", Samples.reminder)]
       else Samples.parse text;
     cal_toString := Samples.render |}.

Definition env_reminders : Env :=
  {| PERSONAL_CALENDAR_URL := "https://example.org/reminders";
     WORK_CALENDAR_URL := "https://example.org/reminders";
     DIGITALOCEAN_SPACES_BUCKET := "calendars";
     axios_get := fun url =>
       if (url =? "https://example.org/reminders")%string then Some "reminders.ics"
       else Samples.get url;
     clock := fun _ => 1709280000000;
     s3_accepts := true |}.

(** * Properties *)

(** ** Sequencing *)

Lemma bind_Ok {A B} (r : result A) (k : A -> result B) (b : B) :
  bind r k = Ok b -> exists a, r = Ok a /\ k a = Ok b.
Proof.
  destruct r as [a | e]; simpl; intros Hk.
  - exists a. split; [reflexivity | exact Hk].
  - discriminate Hk.
Qed.

Lemma traverse_app {A B} (f : A -> result B) (xs ys : list A) :
  traverse f (xs ++ ys) =
  (a <- traverse f xs ;; b <- traverse f ys ;; Ok (a ++ b)).
Proof.
  induction xs as [| x xs IH]; simpl.
  - destruct (traverse f ys); reflexivity.
  - destruct (f x) as [y | e]; simpl; [| reflexivity].
    rewrite IH.
    destruct (traverse f xs) as [a | e]; simpl; [| reflexivity].
    destruct (traverse f ys); reflexivity.
Qed.

Lemma traverse_concat {A B} (f : A -> result B) (xss : list (list A)) :
  traverse f (List.concat xss) =
  (yss <- traverse (traverse f) xss ;; Ok (List.concat yss)).
Proof.
  induction xss as [| xs xss IH]; simpl.
  - reflexivity.
  - rewrite traverse_app, IH.
    destruct (traverse f xs) as [a | e]; simpl; [| reflexivity].
    destruct (traverse (traverse f) xss) as [yss | e]; reflexivity.
Qed.

Lemma traverse_map {A B C} (g : A -> B) (f : B -> result C) (xs : list A) :
  traverse f (map g xs) = traverse (fun x => f (g x)) xs.
Proof.
  induction xs as [| x xs IH]; simpl; [reflexivity |].
  rewrite IH. reflexivity.
Qed.

Lemma traverse_ext {A B} (f g : A -> result B) (xs : list A) :
  (forall x, f x = g x) -> traverse f xs = traverse g xs.
Proof.
  intros Hfg. induction xs as [| x xs IH]; simpl; [reflexivity |].
  rewrite Hfg, IH. reflexivity.
Qed.

Lemma traverse_length {A B} (f : A -> result B) (xs : list A) (ys : list B) :
  traverse f xs = Ok ys -> List.length ys = List.length xs.
Proof.
  revert ys. induction xs as [| x xs IH]; simpl; intros ys Hys.
  - injection Hys as <-. reflexivity.
  - destruct (f x) as [y | e]; simpl in Hys; [| discriminate].
    destruct (traverse f xs) as [ys' | e]; simpl in Hys; [| discriminate].
    injection Hys as <-. simpl. f_equal. apply IH. reflexivity.
Qed.

(** A failing element makes the whole traversal fail. *)
Lemma traverse_Throw {A B} (f : A -> result B) (xs : list A) (x : A) (e : Failure) :
  In x xs -> f x = Throw e -> exists e', traverse f xs = Throw e'.
Proof.
  induction xs as [| x0 xs IH]; simpl; intros Hin Hx; [contradiction |].
  destruct (f x0) as [y | e0] eqn:Hx0; simpl.
  - destruct Hin as [-> | Hin]; [congruence |].
    destruct (IH Hin Hx) as [e' ->]. exists e'. reflexivity.
  - exists e0. reflexivity.
Qed.

(** Every element of a successful traversal has its result in the output. *)
Lemma traverse_In {A B} (f : A -> result B) (xs : list A) (ys : list B) (x : A) :
  traverse f xs = Ok ys -> In x xs -> exists y, f x = Ok y /\ In y ys.
Proof.
  revert ys. induction xs as [| x0 xs IH]; simpl; intros ys Hys Hin; [contradiction |].
  destruct (f x0) as [y0 | e] eqn:Hx0; simpl in Hys; [| discriminate].
  destruct (traverse f xs) as [ys' | e]; simpl in Hys; [| discriminate].
  injection Hys as <-.
  destruct Hin as [-> | Hin].
  - exists y0. split; [exact Hx0 | left; reflexivity].
  - destruct (IH ys' eq_refl Hin) as [y [Hy Hiny]].
    exists y. split; [exact Hy | right; exact Hiny].
Qed.

Lemma forEach_Throw {A S} (body : S -> A -> result S) (xs : list A) (x : A) (s : S) :
  In x xs -> (forall s', exists e, body s' x = Throw e) ->
  exists e, forEach body xs s = Throw e.
Proof.
  revert s. induction xs as [| x0 xs IH]; simpl; intros s Hin Hx; [contradiction |].
  destruct Hin as [-> | Hin].
  - destruct (Hx s) as [e ->]. exists e. reflexivity.
  - destruct (body s x0) as [s' | e]; simpl.
    + apply IH; assumption.
    + exists e. reflexivity.
Qed.

Lemma concat_concat {A} (xsss : list (list (list A))) :
  List.concat (List.concat xsss) = List.concat (map (@List.concat A) xsss).
Proof.
  induction xsss as [| xss xsss IH]; simpl; [reflexivity |].
  rewrite concat_app, IH. reflexivity.
Qed.

Lemma length_concat_sum {A} (xss : list (list A)) :
  List.length (List.concat xss) = list_sum (map (@List.length A) xss).
Proof.
  induction xss as [| xs xss IH]; simpl; [reflexivity |].
  rewrite length_app, IH. reflexivity.
Qed.


Section Expansion.

Context {rr : RRulePkg} {mo : MomentPkg}.

Lemma expandRecurringEvent_recurring (event : Component) (rangeStart rangeEnd : Z)
      (text : string) (options : Options) :
  rrule event = Some text ->
  parseString text = Some options ->
  expandRecurringEvent event rangeStart rangeEnd =
  Ok (map (fun date =>
             spread_start_end event (plainDate date)
               (plainDate (date + (time (end_ event) - time (start event)))))
          (between (set_dtstart options (time (start event))) rangeStart rangeEnd false)).
Proof.
  intros Hrule Hparse. unfold expandRecurringEvent.
  rewrite Hrule, Hparse. reflexivity.
Qed.


(** An occurrence that [expandRecurringEvent] returns is the event itself or
    the event with a start [d] and the end [d + duration]. *)
Lemma expandRecurringEvent_In (event : Component) (rangeStart rangeEnd : Z)
      (occurrences : list Component) (o : Component) :
  expandRecurringEvent event rangeStart rangeEnd = Ok occurrences ->
  In o occurrences ->
  o = event \/
  exists d, o = spread_start_end event (plainDate d)
                  (plainDate (d + (time (end_ event) - time (start event)))).
Proof.
  unfold expandRecurringEvent. intros Hexp Hin.
  destruct (rrule event) as [text |].
  - destruct (parseString text) as [options |]; simpl in Hexp; [| discriminate].
    injection Hexp as <-. apply in_map_iff in Hin. destruct Hin as [d [<- _]].
    right. exists d. reflexivity.
  - injection Hexp as <-. destruct Hin as [<- | []]. left. reflexivity.
Qed.

(** C2.  An event without a recurrence rule expands, for every window, to
    exactly one occurrence, the event itself: its start and end are the
    event's own, whether or not they meet the window. *)
Theorem expand_non_recurring (event : Component) (rangeStart rangeEnd : Z) :
  rrule event = None ->
  expandRecurringEvent event rangeStart rangeEnd = Ok [event].
Proof.
  intros Hrule. unfold expandRecurringEvent. rewrite Hrule. reflexivity.
Qed.


(** Every occurrence that the expansion returns, for a recurring event or
    not, lasts exactly as long as the event, to the millisecond; its end is
    after its start exactly when the event's end is after the event's
    start. *)
Lemma expand_keeps_duration (event : Component) (rangeStart rangeEnd : Z)
        (occurrences : list Component) (o : Component) :
  expandRecurringEvent event rangeStart rangeEnd = Ok occurrences ->
  In o occurrences ->
  time (end_ o) - time (start o) = time (end_ event) - time (start event) /\
  (time (start o) < time (end_ o) <-> time (start event) < time (end_ event)).
Proof.
  intros Hexp Hin.
  destruct (expandRecurringEvent_In _ _ _ _ _ Hexp Hin) as [-> | [d ->]]; simpl; lia.
Qed.

(** C10.  An occurrence that the expansion returns, for a recurring event in
    particular, differs from the event in its start and end only: type, summary, description, location, rule and the
    remaining properties are the event's, and so are the summary, description
    and location handed to the calendar. *)
Theorem expand_changes_only_start_end (event : Component) (rangeStart rangeEnd : Z)
        (occurrences : list Component) (o : Component) :
  expandRecurringEvent event rangeStart rangeEnd = Ok occurrences ->
  In o occurrences ->
  o = spread_start_end event (start o) (end_ o) /\
  (type o = type event /\ summary o = summary event /\
   description o = description event /\ location o = location event /\
   rrule o = rrule event /\ others o = others event) /\
  (ev_summary (eventData event o) = summary event /\
   ev_description (eventData event o) = description event /\
   ev_location (eventData event o) = location event).
Proof.
  intros Hexp Hin.
  destruct (expandRecurringEvent_In _ _ _ _ _ Hexp Hin) as [-> | [d ->]].
  - destruct event; simpl. repeat split.
  - simpl. repeat split.
Qed.

(** The zone that goes to moment-timezone with each field: the one that the
    event's own field carries, or the calendar's zone when it carries
    none. *)
Lemma eventData_resolves_fields_independently (event expandedEvent : Component) :
  (forall z, carried_zone (start event) = Some z ->
             ev_start (eventData event expandedEvent) =
             moment_tz (time (start expandedEvent)) z) /\
  (carried_zone (start event) = None ->
   ev_start (eventData event expandedEvent) =
   moment_tz (time (start expandedEvent)) calendarTimezone) /\
  (forall z, carried_zone (end_ event) = Some z ->
             ev_end (eventData event expandedEvent) =
             moment_tz (time (end_ expandedEvent)) z) /\
  (carried_zone (end_ event) = None ->
   ev_end (eventData event expandedEvent) =
   moment_tz (time (end_ expandedEvent)) calendarTimezone).
Proof.
  unfold carried_zone, eventData, adjustDate, or_default; simpl.
  destruct (tz (start event)) as [zs |], (tz (end_ event)) as [ze |];
    repeat match goal with
           | |- context [String.eqb ?z ""] => destruct (String.eqb z "")
           end;
    repeat split; intros; congruence.
Qed.

(** moment-timezone leaves the instant of a Date where it is: an entry of
    the calendar has the instants of its occurrence, and lasts as long as the
    event it comes from. *)
Lemma eventData_instants (event expandedEvent : Component) :
  ev_start (eventData event expandedEvent) = time (start expandedEvent) /\
  ev_end (eventData event expandedEvent) = time (end_ expandedEvent).
Proof.
  unfold eventData, adjustDate; simpl. rewrite !moment_tz_instant. split; reflexivity.
Qed.

Lemma eventData_keeps_duration (event : Component) (rangeStart rangeEnd : Z)
      (occurrences : list Component) (o : Component) :
  expandRecurringEvent event rangeStart rangeEnd = Ok occurrences ->
  In o occurrences ->
  ev_end (eventData event o) - ev_start (eventData event o) =
  time (end_ event) - time (start event).
Proof.
  intros Hexp Hin. destruct (eventData_instants event o) as [-> ->].
  apply (expand_keeps_duration _ _ _ _ _ Hexp Hin).
Qed.

End Expansion.

Lemma traverse_then {A B C} (g : A -> result B) (h : B -> C) (xs : list A) :
  traverse (fun x => y <- g x ;; Ok (h y)) xs =
  (ys <- traverse g xs ;; Ok (map h ys)).
Proof.
  induction xs as [| x xs IH]; simpl; [reflexivity |].
  destruct (g x) as [y | e]; simpl; [| reflexivity].
  rewrite IH. destruct (traverse g xs); reflexivity.
Qed.

Section Merging.

Context {rr : RRulePkg} {mo : MomentPkg} {ics : IcsPkg}.

Lemma fold_left_createEvent {A} (data : A -> EventData) (xs : list A) (cal : ICalCalendar) :
  fold_left (fun cal x => createEvent cal (data x)) xs cal =
  {| cal_name := cal_name cal; cal_events := cal_events cal ++ map data xs |}.
Proof.
  revert cal. induction xs as [| x xs IH]; intros cal; simpl.
  - rewrite app_nil_r. destruct cal; reflexivity.
  - rewrite IH. simpl. rewrite <- app_assoc. reflexivity.
Qed.

Lemma processEvent_occurrences (rangeStart rangeEnd : Z) (cal : ICalCalendar)
      (event : Component) :
  processEvent rangeStart rangeEnd cal event =
  (added <- occurrences_of_event rangeStart rangeEnd event ;;
   Ok {| cal_name := cal_name cal; cal_events := cal_events cal ++ added |}).
Proof.
  unfold processEvent, occurrences_of_event.
  destruct (type event =? "VEVENT")%string; simpl.
  - destruct (expandRecurringEvent event rangeStart rangeEnd) as [expanded | e]; simpl.
    + rewrite fold_left_createEvent. reflexivity.
    + reflexivity.
  - rewrite app_nil_r. destruct cal; reflexivity.
Qed.

Lemma forEach_processEvent (rangeStart rangeEnd : Z) (events : list Component)
      (cal : ICalCalendar) :
  forEach (processEvent rangeStart rangeEnd) events cal =
  (added <- traverse (occurrences_of_event rangeStart rangeEnd) events ;;
   Ok {| cal_name := cal_name cal; cal_events := cal_events cal ++ List.concat added |}).
Proof.
  revert cal. induction events as [| event events IH]; intros cal; simpl.
  - rewrite app_nil_r. destruct cal; reflexivity.
  - rewrite processEvent_occurrences.
    destruct (occurrences_of_event rangeStart rangeEnd event) as [l | e]; simpl;
      [| reflexivity].
    rewrite IH.
    destruct (traverse (occurrences_of_event rangeStart rangeEnd) events) as [ls | e];
      simpl; [| reflexivity].
    rewrite <- app_assoc. reflexivity.
Qed.

Lemma pipeline_factor (rangeStart rangeEnd : Z) (calendars : list CalendarObject) :
  forEach (processEvent rangeStart rangeEnd)
          (List.concat (map Object_values calendars)) (ical calendarName) =
  (perSource <- traverse (occurrences_of_source rangeStart rangeEnd) calendars ;;
   Ok (spec_merge perSource)).
Proof.
  rewrite forEach_processEvent, traverse_concat, traverse_map.
  unfold occurrences_of_source. rewrite traverse_then.
  destruct (traverse
              (fun x => traverse (occurrences_of_event rangeStart rangeEnd)
                                 (Object_values x)) calendars) as [yss | e];
    simpl; [| reflexivity].
  unfold spec_merge. rewrite concat_concat. reflexivity.
Qed.

(** The script's loop computes the specification's pipeline: the sources are
    fetched, every source is expanded and normalized with one and the same
    window, and the per-source sequences are merged. *)
Lemma mergedCalendar_factor (env : Env) :
  mergedCalendar env =
  (calendars <- traverse (fetchCalendar env) (calendarInputUrls env) ;;
   perSource <- traverse (occurrences_of_source (fst (window env)) (snd (window env)))
                         calendars ;;
   Ok (spec_merge perSource)).
Proof.
  unfold mergedCalendar.
  destruct (traverse (fetchCalendar env) (calendarInputUrls env)) as [calendars | e];
    cbn [bind]; [apply pipeline_factor | reflexivity].
Qed.

(** C4.  When every source is fetched and expanded, the calendar that the
    script fills is the merge of the per-source occurrence sequences: its
    entries are their concatenation, source after source, inside a source in
    raw-event order and inside an event in generation order, and their number
    is the sum of the sequences' lengths.  Nothing is sorted, dropped or
    moved. *)
Theorem merge_is_concatenation (env : Env) (calendars : list CalendarObject)
        (perSource : list (list EventData)) :
  traverse (fetchCalendar env) (calendarInputUrls env) = Ok calendars ->
  traverse (occurrences_of_source (fst (window env)) (snd (window env))) calendars
  = Ok perSource ->
  mergedCalendar env = Ok (spec_merge perSource) /\
  mergeCalendars env = Ok (cal_toString (spec_merge perSource)) /\
  cal_events (spec_merge perSource) = List.concat perSource /\
  List.length (cal_events (spec_merge perSource)) = list_sum (map (@List.length _) perSource) /\
  List.length perSource = List.length (calendarInputUrls env).
Proof.
  intros Hfetch Hper.
  assert (Hcal : mergedCalendar env = Ok (spec_merge perSource)).
  { rewrite mergedCalendar_factor, Hfetch. cbn [bind]. rewrite Hper. reflexivity. }
  split; [exact Hcal |].
  split; [unfold mergeCalendars; rewrite Hcal; reflexivity |].
  split; [reflexivity |].
  split; [apply length_concat_sum |].
  rewrite (traverse_length _ _ _ Hper). apply (traverse_length _ _ _ Hfetch).
Qed.

(** An event whose rule text does not parse makes its source fail. *)
Lemma occurrences_of_source_Throw (rangeStart rangeEnd : Z) (events : CalendarObject)
      (event : Component) (text : string) :
  In event (Object_values events) ->
  type event = "VEVENT" ->
  rrule event = Some text ->
  parseString text = None ->
  exists e, occurrences_of_source rangeStart rangeEnd events = Throw e.
Proof.
  intros Hin Htype Hrule Hparse.
  assert (Hev : occurrences_of_event rangeStart rangeEnd event = Throw (RuleMalformed text)).
  { unfold occurrences_of_event, expandRecurringEvent.
    rewrite Htype, Hrule, Hparse. reflexivity. }
  destruct (traverse_Throw _ _ _ _ Hin Hev) as [e He].
  exists e. unfold occurrences_of_source. rewrite He. reflexivity.
Qed.

Lemma main_Throw (env : Env) (e : Failure) :
  mergedCalendar env = Throw e ->
  mergeCalendars env = Throw e /\
  main env = {| sink := []; console := [LogError e] |}.
Proof.
  intros Hcal.
  assert (Hmerge : mergeCalendars env = Throw e).
  { unfold mergeCalendars. rewrite Hcal. reflexivity. }
  split; [exact Hmerge |].
  unfold main. rewrite Hmerge. reflexivity.
Qed.

(** C6.  When a stage fails (a request is rejected, an ICS text or the rule
    text of an event does not parse), [mergeCalendars] throws, no calendar is
    returned, and the run sends nothing to the Space: it only writes the
    error to the console. *)
Theorem failure_publishes_nothing (env : Env) :
  request_fails env \/ ics_fails env \/ rule_fails env ->
  exists e,
    mergedCalendar env = Throw e /\
    mergeCalendars env = Throw e /\
    sink (main env) = [] /\
    console (main env) = [LogError e].
Proof.
  intros Hfail.
  assert (Hthrow : exists e, mergedCalendar env = Throw e).
  { rewrite mergedCalendar_factor.
    destruct Hfail as [[url [Hin Hget]] | [[url [data [Hin [Hget Hics]]]] | Hrule]].
    - assert (Hf : fetchCalendar env url = Throw (RequestFailed url)).
      { unfold fetchCalendar. rewrite Hget. reflexivity. }
      destruct (traverse_Throw _ _ _ _ Hin Hf) as [e ->]. exists e. reflexivity.
    - assert (Hf : fetchCalendar env url = Throw (IcsMalformed data)).
      { unfold fetchCalendar. rewrite Hget. cbn [bind of_option]. rewrite Hics. reflexivity. }
      destruct (traverse_Throw _ _ _ _ Hin Hf) as [e ->]. exists e. reflexivity.
    - destruct Hrule as [url [data [events [event [text H]]]]].
      destruct H as [Hin [Hget [Hics [Hev [Htype [Hrule Hparse]]]]]].
      destruct (traverse (fetchCalendar env) (calendarInputUrls env))
        as [calendars | e] eqn:Hfetch; cbn [bind]; [| exists e; reflexivity].
      destruct (traverse_In _ _ _ _ Hfetch Hin) as [events' [Hf Hin']].
      unfold fetchCalendar in Hf. rewrite Hget in Hf. cbn [bind of_option] in Hf.
      rewrite Hics in Hf. injection Hf as <-.
      destruct (occurrences_of_source_Throw (fst (window env)) (snd (window env))
                  _ _ _ Hev Htype Hrule Hparse) as [e0 He0].
      destruct (traverse_Throw _ _ _ _ Hin' He0) as [e ->].
      exists e. reflexivity. }
  destruct Hthrow as [e He]. exists e.
  destruct (main_Throw env e He) as [Hmerge Hmain].
  rewrite Hmain. repeat split; assumption.
Qed.

(** A run where nothing fails sends exactly one command to the Space, under
    the key made from the calendar's name. *)
Lemma success_publishes_once (env : Env) (body : string) :
  mergeCalendars env = Ok body ->
  sink (main env) =
  [{| Bucket := DIGITALOCEAN_SPACES_BUCKET env;
      Key := urlSafeKey;
      Body := body;
      ACL := "public-read";
      ContentType := "text/calendar" |}].
Proof.
  intros Hmerge. unfold main. rewrite Hmerge.
  destruct (s3_accepts env); reflexivity.
Qed.

(** With one reading of the clock, and a package for which the end of the day
    a year later does not depend on the time of day, the window ends at the
    end of the day one year after its start. *)
Lemma window_single_reading (env : Env) :
  (forall zone t,
      endOf_day zone (add_years zone 1 (startOf_day zone t)) =
      endOf_day zone (add_years zone 1 t)) ->
  clock env 1%nat = clock env 0%nat ->
  snd (window env) = endOf_day calendarTimezone (add_years calendarTimezone 1 (fst (window env))).
Proof.
  intros Hday Hclock. unfold window; simpl. rewrite Hclock, Hday. reflexivity.
Qed.

End Merging.

(** ** The key of the uploaded object *)

Lemma az09_not_hyphen (c : ascii) : not_az09 c = false -> is_hyphen c = false.
Proof.
  unfold is_hyphen. destruct (Ascii.eqb_spec c "-") as [-> | _]; [| reflexivity].
  vm_compute. discriminate.
Qed.

Lemma fields_not_nil (sep : ascii -> bool) (s : string) : fields sep s <> [].
Proof.
  destruct s as [| c rest]; simpl; [discriminate |].
  destruct (sep c); [discriminate |].
  destruct (fields sep rest); discriminate.
Qed.

(** The words of a string that begins with a unit that is kept. *)
Lemma words_keep (sep : ascii -> bool) (c : ascii) (rest : string) :
  sep c = false ->
  words sep (String c rest) =
  match rest with
  | EmptyString => [String c EmptyString]
  | String d _ =>
      if sep d then String c EmptyString :: words sep rest
      else match words sep rest with
           | w :: ws => String c w :: ws
           | [] => [String c EmptyString]
           end
  end.
Proof.
  intros Hc. unfold words. simpl. rewrite Hc.
  destruct rest as [| d rest']; [reflexivity |].
  simpl. destruct (sep d) eqn:Hd; [reflexivity |].
  pose proof (fields_not_nil sep rest') as Hne.
  destruct (fields sep rest') as [| w ws]; [contradiction |].
  reflexivity.
Qed.

Lemma words_skip (sep : ascii -> bool) (c : ascii) (rest : string) :
  sep c = true -> words sep (String c rest) = words sep rest.
Proof.
  intros Hc. unfold words. simpl. rewrite Hc. reflexivity.
Qed.

Lemma words_keep_not_nil (sep : ascii -> bool) (c : ascii) (rest : string) :
  sep c = false -> words sep (String c rest) <> [].
Proof.
  intros Hc. rewrite (words_keep sep c rest Hc).
  destruct rest as [| d rest']; [discriminate |].
  destruct (sep d); [discriminate |].
  destruct (words sep (String d rest')); discriminate.
Qed.

Lemma drop_leading_replace_runs (s : string) :
  drop_leading_hyphens (replace_runs true s) = replace_runs true s /\
  drop_leading_hyphens (replace_runs false s) = replace_runs true s.
Proof.
  induction s as [| c rest [IHt IHf]]; simpl; [split; reflexivity |].
  destruct (not_az09 c) eqn:Hc; simpl.
  - split; assumption.
  - rewrite (az09_not_hyphen c Hc). split; reflexivity.
Qed.

Lemma all_hyphens_replace_runs (s : string) :
  all_hyphens (replace_runs true s) =
  match words not_az09 s with [] => true | _ :: _ => false end.
Proof.
  induction s as [| c rest IH]; [reflexivity |].
  simpl replace_runs. destruct (not_az09 c) eqn:Hc.
  - rewrite (words_skip _ _ _ Hc). exact IH.
  - simpl. rewrite (az09_not_hyphen c Hc). simpl.
    pose proof (words_keep_not_nil not_az09 c rest Hc) as Hne.
    destruct (words not_az09 (String c rest)); [contradiction | reflexivity].
Qed.

Lemma concat_keep (c : ascii) (w : string) (ws : list string) :
  String.concat "-" (String c w :: ws) = String c (String.concat "-" (w :: ws)).
Proof. destruct ws; reflexivity. Qed.

Lemma drop_trailing_replace_runs (s : string) :
  drop_trailing_hyphens (replace_runs true s) = String.concat "-" (words not_az09 s) /\
  drop_trailing_hyphens (replace_runs false s) =
  (if starts_with not_az09 s then hyphenated (words not_az09 s)
   else String.concat "-" (words not_az09 s)).
Proof.
  induction s as [| c rest [IHt IHf]]; [split; reflexivity |].
  simpl replace_runs. simpl starts_with.
  destruct (not_az09 c) eqn:Hc.
  - rewrite (words_skip _ _ _ Hc). split; [exact IHt |].
    simpl drop_trailing_hyphens. rewrite all_hyphens_replace_runs, IHt.
    destruct (words not_az09 rest); reflexivity.
  - assert (Hgoal : drop_trailing_hyphens (String c (replace_runs false rest)) =
                    String.concat "-" (words not_az09 (String c rest))).
    { simpl drop_trailing_hyphens. rewrite (az09_not_hyphen c Hc). simpl andb. cbv iota.
      rewrite IHf, (words_keep _ _ _ Hc).
      destruct rest as [| d rest']; [reflexivity |].
      simpl starts_with. destruct (not_az09 d) eqn:Hd.
      - destruct (words not_az09 (String d rest')); reflexivity.
      - pose proof (words_keep_not_nil not_az09 d rest' Hd) as Hne.
        destruct (words not_az09 (String d rest')) as [| w ws]; [contradiction |].
        rewrite concat_keep. reflexivity. }
    split; exact Hgoal.
Qed.

Lemma createUrlSafeString_words (str : string) :
  createUrlSafeString str = String.concat "-" (words not_az09 (toLowerCase str)).
Proof.
  unfold createUrlSafeString, strip_hyphens.
  destruct (drop_leading_replace_runs (toLowerCase str)) as [_ ->].
  apply drop_trailing_replace_runs.
Qed.

(** The pieces between separators hold no separator. *)
Lemma fields_no_separator (sep : ascii -> bool) (s : string) :
  Forall (fun w => all_units (fun c => negb (sep c)) w = true) (fields sep s).
Proof.
  induction s as [| c rest IH]; simpl.
  - constructor; [reflexivity | constructor].
  - destruct (sep c) eqn:Hc.
    + constructor; [reflexivity | exact IH].
    + destruct (fields sep rest) as [| w ws].
      * constructor; [simpl; rewrite Hc; reflexivity | constructor].
      * inversion IH as [| w' ws' Hw Hws]; subst.
        constructor; [simpl; rewrite Hc, Hw; reflexivity | exact Hws].
Qed.

(** Every word of the slug is a non-empty run of units of [[a-z0-9]]. *)
Lemma words_az09 (s : string) :
  Forall (fun w => w <> EmptyString /\ all_units az09 w = true) (words not_az09 s).
Proof.
  unfold words. apply Forall_forall. intros w Hin.
  apply filter_In in Hin. destruct Hin as [Hin Hne].
  pose proof (fields_no_separator not_az09 s) as Hall.
  rewrite Forall_forall in Hall. specialize (Hall w Hin).
  split.
  - intros ->. discriminate Hne.
  - revert Hall. clear. induction w as [| c w IH]; simpl; [reflexivity |].
    unfold not_az09 at 1. rewrite negb_involutive.
    intros H. apply andb_true_iff in H. destruct H as [Hc Hw].
    rewrite Hc. simpl. apply IH. exact Hw.
Qed.

(** The units that lower-casing brings into [[a-z0-9]] are the digits and the
    letters of both cases. *)
Lemma lower_unit_az09 (c : ascii) :
  az09 (lower_unit c) = az09 c || in_range "A" "Z" c.
Proof.
  destruct c as [[] [] [] [] [] [] [] []]; vm_compute; reflexivity.
Qed.

Section Publishing.

Context {rr : RRulePkg} {mo : MomentPkg} {ics : IcsPkg}.


End Publishing.

(** ** The instances meet the interfaces *)

Lemma StronglySorted_filter {A} (R : A -> A -> Prop) (p : A -> bool) (l : list A) :
  StronglySorted R l -> StronglySorted R (filter p l).
Proof.
  induction 1 as [| x l Hl IH Hx]; simpl; [constructor |].
  destruct (p x); [| exact IH].
  constructor; [exact IH |].
  rewrite Forall_forall in *. intros y Hy.
  apply filter_In in Hy. apply Hx. apply Hy.
Qed.

Lemma steps_lower (n : nat) (d x : Z) : In x (DailyRules.steps d n) -> d <= x.
Proof.
  revert d. induction n as [| n IH]; simpl; intros d Hin; [contradiction |].
  destruct Hin as [<- | Hin]; [lia |].
  specialize (IH _ Hin). lia.
Qed.

Lemma steps_ascending (n : nat) (d : Z) : StronglySorted Z.lt (DailyRules.steps d n).
Proof.
  revert d. induction n as [| n IH]; simpl; intros d; constructor.
  - apply IH.
  - apply Forall_forall. intros x Hin. apply steps_lower in Hin. lia.
Qed.

Lemma dates_ascending (o : DailyRules.options) : StronglySorted Z.lt (DailyRules.dates o).
Proof.
  unfold DailyRules.dates. destruct (DailyRules.from o); [apply steps_ascending | constructor].
Qed.

Lemma daily_between_In (o : DailyRules.options) (a b d : Z) (inc : bool) :
  In d (DailyRules.between o a b inc) <->
  In d (DailyRules.dates o) /\ DailyRules.within inc a b d = true.
Proof. unfold DailyRules.between. apply filter_In. Qed.

Definition daily_rules : RRulePkg.
Proof.
  refine {| Options := DailyRules.options;
            parseString := DailyRules.parse;
            set_dtstart := DailyRules.with_from;
            dtstart := DailyRules.from;
            occurs := fun o d => In d (DailyRules.dates o);
            between := DailyRules.between |}.
  - reflexivity.
  - intros o a b inc. apply StronglySorted_filter, dates_ascending.
  - intros o a b d. rewrite daily_between_In. unfold DailyRules.within.
    rewrite andb_true_iff, !Z.ltb_lt. tauto.
  - intros o a b d. rewrite daily_between_In. unfold DailyRules.within.
    rewrite andb_true_iff, !Z.leb_le. tauto.
Defined.

Definition fixed_offset : MomentPkg :=
  {| moment_tz := FixedOffset.moment_tz;
     startOf_day := FixedOffset.startOf_day;
     add_years := FixedOffset.add_years;
     endOf_day := FixedOffset.endOf_day;
     moment_tz_instant := fun t zone => eq_refl |}.

Definition samples : IcsPkg :=
  {| parseICS := Samples.parse; cal_toString := Samples.render |}.

(** The stand-ins on a few known values: the epoch, a leap day, a year added
    to a leap day, and the rule texts that parse. *)
Example civil_epoch : FixedOffset.days_from_civil 1970 1 1 = 0.
Proof. reflexivity. Qed.

Example civil_leap_day :
  FixedOffset.civil_from_days (FixedOffset.days_from_civil 2024 2 29) = (2024, 2, 29) /\
  FixedOffset.days_in_month 2024 2 = 29 /\
  FixedOffset.days_in_month 2025 2 = 28.
Proof. repeat split. Qed.

Example add_years_from_leap_day :
  FixedOffset.add_years "Europe/Madrid" 1 (FixedOffset.days_from_civil 2024 2 29 * 86400000)
  = FixedOffset.days_from_civil 2025 2 28 * 86400000.
Proof. vm_compute. reflexivity. Qed.

Example daily_rules_parse :
  DailyRules.parse "FREQ=DAILY;COUNT=12" = Some (DailyRules.mkOptions None 12) /\
  DailyRules.parse "FREQ=DAILY;COUNT=" = None /\
  DailyRules.parse "FREQ=SOMETIMES" = None.
Proof. repeat split. Qed.

(** ** The theorems at work on the samples *)

Lemma expand_non_recurring_witness :
  rrule Samples.meeting = None /\
  expandRecurringEvent (rr := daily_rules) Samples.meeting 1709247600000 1740869999999
  = Ok [Samples.meeting].
Proof.
  split; [reflexivity |].
  apply (expand_non_recurring (rr := daily_rules)). reflexivity.
Defined.



Lemma expand_changes_only_start_end_witness :
  rrule Samples.standup = Some "FREQ=DAILY;COUNT=3" /\
  expandRecurringEvent (rr := daily_rules) Samples.standup 1709280000000 1709539200000
  = Ok [Samples.standup_at 1709366400000; Samples.standup_at 1709452800000] /\
  In (Samples.standup_at 1709366400000)
     [Samples.standup_at 1709366400000; Samples.standup_at 1709452800000] /\
  summary (Samples.standup_at 1709366400000) = Some "Standup" /\
  ev_description (eventData (mo := fixed_offset) Samples.standup
                    (Samples.standup_at 1709366400000)) = Some "Daily".
Proof.
  assert (Hexp : expandRecurringEvent (rr := daily_rules) Samples.standup
                   1709280000000 1709539200000
                 = Ok [Samples.standup_at 1709366400000; Samples.standup_at 1709452800000])
    by (vm_compute; reflexivity).
  assert (Hin : In (Samples.standup_at 1709366400000)
                   [Samples.standup_at 1709366400000; Samples.standup_at 1709452800000])
    by (left; reflexivity).
  split; [reflexivity |].
  split; [exact Hexp |].
  split; [exact Hin |].
  destruct (expand_changes_only_start_end (rr := daily_rules) (mo := fixed_offset)
              Samples.standup _ _ _ _ Hexp Hin)
    as [_ [[_ [Hsummary _]] [_ [Hdescription _]]]].
  split; [exact Hsummary | exact Hdescription].
Defined.

Lemma merge_is_concatenation_witness :
  traverse (fetchCalendar (ics := samples) Samples.env) (calendarInputUrls Samples.env)
  = Ok [Samples.personal; Samples.work] /\
  traverse (occurrences_of_source (rr := daily_rules) (mo := fixed_offset)
              (fst (window (mo := fixed_offset) Samples.env))
              (snd (window (mo := fixed_offset) Samples.env)))
           [Samples.personal; Samples.work]
  = Ok Samples.expected /\
  mergedCalendar (rr := daily_rules) (mo := fixed_offset) (ics := samples) Samples.env
  = Ok (spec_merge Samples.expected) /\
  List.length (cal_events (spec_merge Samples.expected))
  = list_sum (map (@List.length _) Samples.expected).
Proof.
  assert (Hfetch : traverse (fetchCalendar (ics := samples) Samples.env)
                            (calendarInputUrls Samples.env)
                   = Ok [Samples.personal; Samples.work])
    by (vm_compute; reflexivity).
  assert (Hper : traverse (occurrences_of_source (rr := daily_rules) (mo := fixed_offset)
                             (fst (window (mo := fixed_offset) Samples.env))
                             (snd (window (mo := fixed_offset) Samples.env)))
                          [Samples.personal; Samples.work]
                 = Ok Samples.expected)
    by (vm_compute; reflexivity).
  destruct (merge_is_concatenation (rr := daily_rules) (mo := fixed_offset) (ics := samples)
              Samples.env _ _ Hfetch Hper) as [Hcal [_ [_ [Hlen _]]]].
  split; [exact Hfetch |].
  split; [exact Hper |].
  split; [exact Hcal | exact Hlen].
Defined.

Lemma failure_publishes_nothing_witness :
  rule_fails (rr := daily_rules) (ics := samples) Samples.env_broken /\
  exists e,
    mergeCalendars (rr := daily_rules) (mo := fixed_offset) (ics := samples)
      Samples.env_broken = Throw e /\
    sink (main (rr := daily_rules) (mo := fixed_offset) (ics := samples) Samples.env_broken)
    = [].
Proof.
  assert (Hfail : rule_fails (rr := daily_rules) (ics := samples) Samples.env_broken).
  { exists "https://example.org/broken", "broken.ics", Samples.faulty, Samples.broken,
      "FREQ=SOMETIMES".
    repeat split; try reflexivity.
    - right; left; reflexivity.
    - left; reflexivity. }
  split; [exact Hfail |].
  destruct (failure_publishes_nothing (rr := daily_rules) (mo := fixed_offset)
              (ics := samples) Samples.env_broken (or_intror (or_intror Hfail)))
    as [e [_ [Hmerge [Hsink _]]]].
  exists e. split; [exact Hmerge | exact Hsink].
Defined.

(** C7.  The window of a run whose two readings of the clock fall on either
    side of midnight in Madrid: it starts with 2024-01-15 and ends with
    2025-01-16, one day after the end of the day that lies one year after its
    start. *)
Theorem window_across_midnight :
  clock Samples.env_midnight 0%nat = 1705359599999 /\
  clock Samples.env_midnight 1%nat = 1705359600000 /\
  window (mo := fixed_offset) Samples.env_midnight = (1705273200000, 1737068399999) /\
  endOf_day (MomentPkg := fixed_offset) calendarTimezone
    (add_years (MomentPkg := fixed_offset) calendarTimezone 1 1705273200000)
  = 1736981999999 /\
  FixedOffset.civil_from_days ((1705273200000 + FixedOffset.offset) / FixedOffset.msPerDay)
  = (2024, 1, 15) /\
  FixedOffset.civil_from_days ((1737068399999 + FixedOffset.offset) / FixedOffset.msPerDay)
  = (2025, 1, 16).
Proof.
  repeat split; vm_compute; reflexivity.
Qed.

(** A run where nothing fails, from the two samples to the upload. *)
Example main_on_samples :
  main (rr := daily_rules) (mo := fixed_offset) (ics := samples) Samples.env =
  {| sink := [{| Bucket := "calendars";
                 Key := "johndoe-is-extraordinarily-busy.ics";
                 Body := "JohnDoe is EXTRAORDINARILY BUSY;Meeting;Standup;Standup;Standup";
                 ACL := "public-read";
                 ContentType := "text/calendar" |}];
     console := [LogUploaded; LogKey "johndoe-is-extraordinarily-busy.ics"] |}.
Proof. vm_compute. reflexivity. Qed.

(** A rejected request and a text that is no calendar: nothing is uploaded. *)
Example main_on_rejected_request :
  main (rr := daily_rules) (mo := fixed_offset) (ics := samples)
    {| PERSONAL_CALENDAR_URL := "https://example.org/personal";
       WORK_CALENDAR_URL := "https://example.org/down";
       DIGITALOCEAN_SPACES_BUCKET := "calendars";
       axios_get := Samples.get;
       clock := fun _ => 1709280000000;
       s3_accepts := true |}
  = {| sink := []; console := [LogError (RequestFailed "https://example.org/down")] |}.
Proof. vm_compute. reflexivity. Qed.

Example main_on_malformed_text :
  main (rr := daily_rules) (mo := fixed_offset) (ics := samples)
    {| PERSONAL_CALENDAR_URL := "https://example.org/garbage";
       WORK_CALENDAR_URL := "https://example.org/work";
       DIGITALOCEAN_SPACES_BUCKET := "calendars";
       axios_get := Samples.get;
       clock := fun _ => 1709280000000;
       s3_accepts := true |}
  = {| sink := []; console := [LogError (IcsMalformed "not a calendar")] |}.
Proof. vm_compute. reflexivity. Qed.

(** * Further properties *)

(** ** The shape of the key *)

Lemma words_good (s : string) : Forall good_word (words not_az09 s).
Proof. exact (words_az09 s). Qed.

Lemma az09_is_hyphen (c : ascii) : az09 c = true -> is_hyphen c = false.
Proof.
  intros Hc. apply az09_not_hyphen. unfold not_az09. rewrite Hc. reflexivity.
Qed.

Lemma all_units_app (p : ascii -> bool) (a b : string) :
  all_units p (a ++ b) = all_units p a && all_units p b.
Proof.
  induction a as [| c a IH]; simpl; [reflexivity |].
  rewrite IH, andb_assoc. reflexivity.
Qed.

Lemma ends_with_app (p : ascii -> bool) (a b : string) :
  b <> EmptyString -> ends_with p (a ++ b) = ends_with p b.
Proof.
  intros Hb. induction a as [| c a IH]; [reflexivity |].
  simpl. destruct (a ++ b)%string as [| d r] eqn:Hab.
  - destruct a; simpl in Hab; [contradiction | discriminate].
  - exact IH.
Qed.

Lemma ends_with_cons (p : ascii -> bool) (c : ascii) (s : string) :
  s <> EmptyString -> ends_with p (String c s) = ends_with p s.
Proof. destruct s; [contradiction | reflexivity]. Qed.

Lemma all_az09_url_safe (w : string) :
  all_units az09 w = true -> all_units url_safe_unit w = true.
Proof.
  induction w as [| c w IH]; simpl; [reflexivity |].
  intros H. apply andb_true_iff in H. destruct H as [Hc Hw].
  rewrite (IH Hw). unfold url_safe_unit. rewrite Hc. reflexivity.
Qed.

Lemma ends_with_az09 (w : string) :
  all_units az09 w = true -> ends_with is_hyphen w = false.
Proof.
  induction w as [| c w IH]; simpl; [reflexivity |].
  intros H. apply andb_true_iff in H. destruct H as [Hc Hw].
  destruct w; [apply az09_is_hyphen, Hc | apply IH, Hw].
Qed.

Lemma no_double_hyphen_az09 (w t : string) :
  all_units az09 w = true -> no_double_hyphen (w ++ t) = no_double_hyphen t.
Proof.
  induction w as [| c w IH]; simpl; [reflexivity |].
  intros H. apply andb_true_iff in H. destruct H as [Hc Hw].
  rewrite (az09_is_hyphen c Hc), (IH Hw). reflexivity.
Qed.

Lemma no_double_hyphen_word (w : string) :
  all_units az09 w = true -> no_double_hyphen w = true.
Proof.
  induction w as [| c w IH]; simpl; [reflexivity |].
  intros H. apply andb_true_iff in H. destruct H as [Hc Hw].
  rewrite (az09_is_hyphen c Hc), (IH Hw). reflexivity.
Qed.

(** A join of words is not empty and begins with a unit of [[a-z0-9]]. *)
Lemma join_starts (w : string) (ws : list string) :
  Forall good_word (w :: ws) ->
  starts_with az09 (String.concat "-" (w :: ws)) = true.
Proof.
  intros Hgood. inversion Hgood as [| w' ws' [Hne Hall] _]; subst.
  destruct w as [| c w]; [contradiction |].
  simpl in Hall. apply andb_true_iff in Hall. destruct Hall as [Hc _].
  destruct ws; simpl; exact Hc.
Qed.

Lemma starts_az09_not_hyphen (s : string) :
  starts_with az09 s = true -> starts_with is_hyphen s = false /\ s <> EmptyString.
Proof.
  destruct s as [| c s]; simpl; [discriminate |].
  intros Hc. split; [apply az09_is_hyphen, Hc | discriminate].
Qed.

Lemma join_shape (ws : list string) :
  Forall good_word ws ->
  all_units url_safe_unit (String.concat "-" ws) = true /\
  ends_with is_hyphen (String.concat "-" ws) = false /\
  no_double_hyphen (String.concat "-" ws) = true.
Proof.
  induction ws as [| w ws IH]; intros Hgood; [repeat split |].
  inversion Hgood as [| w' ws' [Hne Hall] Hrest]; subst.
  destruct ws as [| w2 ws].
  - simpl. split; [apply all_az09_url_safe, Hall |].
    split; [apply ends_with_az09, Hall |].
    apply no_double_hyphen_word, Hall.
  - destruct (IH Hrest) as [Hsafe [Hend Hdouble]].
    destruct (starts_az09_not_hyphen _ (join_starts w2 ws Hrest)) as [Hstart Hnonempty].
    change (String.concat "-" (w :: w2 :: ws))
      with (w ++ String "-" (String.concat "-" (w2 :: ws)))%string.
    set (u := String.concat "-" (w2 :: ws)) in *. clearbody u.
    split; [| split].
    + rewrite all_units_app, (all_az09_url_safe w Hall). simpl. exact Hsafe.
    + rewrite ends_with_app by discriminate.
      rewrite (ends_with_cons _ _ _ Hnonempty). exact Hend.
    + rewrite (no_double_hyphen_az09 w _ Hall). simpl.
      rewrite Hstart, Hdouble. reflexivity.
Qed.

(** X1.  The key holds units of [[a-z0-9]] and hyphens only; it neither begins
    nor ends with a hyphen, and no two hyphens follow each other. *)
Theorem createUrlSafeString_shape (str : string) :
  all_units url_safe_unit (createUrlSafeString str) = true /\
  starts_with is_hyphen (createUrlSafeString str) = false /\
  ends_with is_hyphen (createUrlSafeString str) = false /\
  no_double_hyphen (createUrlSafeString str) = true.
Proof.
  rewrite createUrlSafeString_words.
  pose proof (words_good (toLowerCase str)) as Hgood.
  destruct (join_shape _ Hgood) as [Hsafe [Hend Hdouble]].
  split; [exact Hsafe |].
  split; [| split; [exact Hend | exact Hdouble]].
  destruct (words not_az09 (toLowerCase str)) as [| w ws]; [reflexivity |].
  apply (starts_az09_not_hyphen _ (join_starts w ws Hgood)).
Qed.

(** ** The key can be cut back into the words of the name *)

Lemma words_one (w : string) :
  good_word w -> words not_az09 w = [w].
Proof.
  intros [Hne Hall]. induction w as [| c w IH]; [contradiction |].
  simpl in Hall. apply andb_true_iff in Hall. destruct Hall as [Hc Hw].
  assert (Hsep : not_az09 c = false) by (unfold not_az09; rewrite Hc; reflexivity).
  rewrite (words_keep _ _ _ Hsep).
  destruct w as [| d w]; [reflexivity |].
  assert (Hd : not_az09 d = false).
  { simpl in Hw. apply andb_true_iff in Hw. destruct Hw as [Hd _].
    unfold not_az09. rewrite Hd. reflexivity. }
  cbv beta iota. rewrite Hd, IH; [reflexivity | discriminate | exact Hw].
Qed.

Lemma words_then_hyphen (w rest : string) :
  good_word w ->
  words not_az09 (w ++ String "-" rest) = w :: words not_az09 rest.
Proof.
  intros [Hne Hall]. induction w as [| c w IH]; [contradiction |].
  simpl in Hall. apply andb_true_iff in Hall. destruct Hall as [Hc Hw].
  assert (Hsep : not_az09 c = false) by (unfold not_az09; rewrite Hc; reflexivity).
  change (String c w ++ String "-" rest)%string with (String c (w ++ String "-" rest)).
  rewrite (words_keep _ _ _ Hsep).
  destruct w as [| d w].
  - change (EmptyString ++ String "-" rest)%string with (String "-" rest).
    cbv beta iota. rewrite (words_skip not_az09 "-" rest eq_refl).
    change (not_az09 "-") with true. reflexivity.
  - assert (Hd : not_az09 d = false).
    { simpl in Hw. apply andb_true_iff in Hw. destruct Hw as [Hd _].
      unfold not_az09. rewrite Hd. reflexivity. }
    rewrite IH; [| discriminate | exact Hw].
    change (String d w ++ String "-" rest)%string with (String d (w ++ String "-" rest)).
    cbv beta iota. rewrite Hd. reflexivity.
Qed.

Lemma words_join (ws : list string) :
  Forall good_word ws -> words not_az09 (String.concat "-" ws) = ws.
Proof.
  induction ws as [| w ws IH]; intros Hgood; [reflexivity |].
  inversion Hgood as [| w' ws' Hw Hrest]; subst.
  destruct ws as [| w2 ws]; [apply words_one, Hw |].
  change (String.concat "-" (w :: w2 :: ws))
    with (w ++ String "-" (String.concat "-" (w2 :: ws)))%string.
  rewrite (words_then_hyphen _ _ Hw), (IH Hrest). reflexivity.
Qed.

Lemma lower_unit_url_safe (c : ascii) : url_safe_unit c = true -> lower_unit c = c.
Proof.
  destruct c as [[] [] [] [] [] [] [] []]; vm_compute; intros H;
    first [reflexivity | discriminate H].
Qed.

Lemma toLowerCase_url_safe (s : string) :
  all_units url_safe_unit s = true -> toLowerCase s = s.
Proof.
  induction s as [| c s IH]; simpl; [reflexivity |].
  intros H. apply andb_true_iff in H. destruct H as [Hc Hs].
  rewrite (lower_unit_url_safe c Hc), (IH Hs). reflexivity.
Qed.

Lemma words_of_key (str : string) :
  words not_az09 (toLowerCase (createUrlSafeString str)) = words not_az09 (toLowerCase str).
Proof.
  rewrite createUrlSafeString_words.
  pose proof (words_good (toLowerCase str)) as Hgood.
  destruct (join_shape _ Hgood) as [Hsafe _].
  rewrite (toLowerCase_url_safe _ Hsafe). apply words_join, Hgood.
Qed.

(** X2.  Making a key of a key changes nothing. *)
Theorem createUrlSafeString_idempotent (str : string) :
  createUrlSafeString (createUrlSafeString str) = createUrlSafeString str.
Proof.
  rewrite (createUrlSafeString_words (createUrlSafeString str)), words_of_key.
  symmetry. apply createUrlSafeString_words.
Qed.

(** X3.  Two names get the same key exactly when their lower-cased forms have the
    same words: case, and what stands between the words, make no
    difference. *)
Theorem createUrlSafeString_same_key (a b : string) :
  createUrlSafeString a = createUrlSafeString b <->
  words not_az09 (toLowerCase a) = words not_az09 (toLowerCase b).
Proof.
  split; intros H.
  - rewrite <- (words_of_key a), <- (words_of_key b), H. reflexivity.
  - rewrite !createUrlSafeString_words, H. reflexivity.
Qed.

(** ** The empty key and the length of a key *)

Lemma words_nil_iff (sep : ascii -> bool) (s : string) :
  words sep s = [] <-> all_units sep s = true.
Proof.
  induction s as [| c s IH]; [split; reflexivity |].
  simpl all_units. destruct (sep c) eqn:Hc.
  - rewrite (words_skip _ _ _ Hc). exact IH.
  - split; [| discriminate].
    intros H. destruct (words_keep_not_nil sep c s Hc H).
Qed.

Lemma join_nil_iff (ws : list string) :
  Forall good_word ws -> (String.concat "-" ws = EmptyString <-> ws = []).
Proof.
  intros Hgood. split; [| intros ->; reflexivity].
  destruct ws as [| w ws]; [reflexivity |].
  intros H. pose proof (join_starts w ws Hgood) as Hstart.
  rewrite H in Hstart. discriminate Hstart.
Qed.

(** X4.  The key is empty exactly when the lower-cased name holds no unit of
    [[a-z0-9]]. *)
Theorem createUrlSafeString_empty (str : string) :
  createUrlSafeString str = EmptyString <->
  all_units not_az09 (toLowerCase str) = true.
Proof.
  rewrite createUrlSafeString_words, <- words_nil_iff.
  apply join_nil_iff, words_good.
Qed.

Lemma length_replace_runs (matching : bool) (s : string) :
  (String.length (replace_runs matching s) <= String.length s)%nat.
Proof.
  revert matching. induction s as [| c s IH]; intros matching; simpl; [lia |].
  pose proof (IH true). pose proof (IH false).
  destruct (not_az09 c); [destruct matching |]; simpl; lia.
Qed.

Lemma length_drop_leading_hyphens (s : string) :
  (String.length (drop_leading_hyphens s) <= String.length s)%nat.
Proof.
  induction s as [| c s IH]; simpl; [lia |].
  destruct (is_hyphen c); simpl; lia.
Qed.

Lemma length_drop_trailing_hyphens (s : string) :
  (String.length (drop_trailing_hyphens s) <= String.length s)%nat.
Proof.
  induction s as [| c s IH]; simpl; [lia |].
  destruct (is_hyphen c && all_hyphens s); simpl; lia.
Qed.

(** X5.  The key is never longer than the lower-cased name: the two
    replacements take units away, or put one hyphen for a run of one or
    more. *)
Theorem createUrlSafeString_length (str : string) :
  (String.length (createUrlSafeString str) <= String.length (toLowerCase str))%nat.
Proof.
  unfold createUrlSafeString, strip_hyphens.
  pose proof (length_drop_trailing_hyphens
                (drop_leading_hyphens (replace_runs false (toLowerCase str)))).
  pose proof (length_drop_leading_hyphens (replace_runs false (toLowerCase str))).
  pose proof (length_replace_runs false (toLowerCase str)).
  lia.
Qed.

(** ** Where the entries come from *)

Lemma traverse_In_inv {A B} (f : A -> result B) (xs : list A) (ys : list B) (y : B) :
  traverse f xs = Ok ys -> In y ys -> exists x, In x xs /\ f x = Ok y.
Proof.
  revert ys. induction xs as [| x xs IH]; simpl; intros ys H Hin.
  - injection H as <-. destruct Hin.
  - destruct (f x) as [y0 | e] eqn:Hx; simpl in H; [| discriminate].
    destruct (traverse f xs) as [ys' | e]; simpl in H; [| discriminate].
    injection H as <-. destruct Hin as [<- | Hin].
    + exists x. split; [left; reflexivity | exact Hx].
    + destruct (IH ys' eq_refl Hin) as [x' [Hin' Hx']].
      exists x'. split; [right; exact Hin' | exact Hx'].
Qed.

Section Causes.

Context {rr : RRulePkg} {mo : MomentPkg} {ics : IcsPkg}.

Lemma fetchCalendar_Ok (env : Env) (url : string) (events : CalendarObject) :
  fetchCalendar env url = Ok events ->
  exists data, axios_get env url = Some data /\ parseICS data = Some events.
Proof.
  unfold fetchCalendar. destruct (axios_get env url) as [data |]; simpl; [| discriminate].
  destruct (parseICS data) as [events' |] eqn:Hics; simpl; [| discriminate].
  intros H. injection H as <-. exists data. split; [reflexivity | exact Hics].
Qed.

(** An occurrence of the expansion, with the case it comes from. *)
Lemma expandRecurringEvent_cases (event : Component) (rangeStart rangeEnd : Z)
      (occurrences : list Component) (o : Component) :
  expandRecurringEvent event rangeStart rangeEnd = Ok occurrences ->
  In o occurrences ->
  (rrule event = None /\ o = event) \/
  (exists text options d,
      rrule event = Some text /\ parseString text = Some options /\
      In d (between (set_dtstart options (time (start event))) rangeStart rangeEnd false) /\
      o = spread_start_end event (plainDate d)
            (plainDate (d + (time (end_ event) - time (start event))))).
Proof.
  unfold expandRecurringEvent. intros Hexp Hin.
  destruct (rrule event) as [text |].
  - destruct (parseString text) as [options |] eqn:Hparse; simpl in Hexp; [| discriminate].
    injection Hexp as <-. apply in_map_iff in Hin. destruct Hin as [d [<- Hd]].
    right. exists text, options, d. repeat split; assumption.
  - injection Hexp as <-. destruct Hin as [<- | []]. left. split; reflexivity.
Qed.

Lemma occurrences_of_event_In (rangeStart rangeEnd : Z) (event : Component)
      (entries : list EventData) (d : EventData) :
  occurrences_of_event rangeStart rangeEnd event = Ok entries ->
  In d entries ->
  type event = "VEVENT" /\
  exists occurrences o,
    expandRecurringEvent event rangeStart rangeEnd = Ok occurrences /\
    In o occurrences /\ d = eventData event o.
Proof.
  unfold occurrences_of_event.
  destruct (type event =? "VEVENT")%string eqn:Htype.
  - destruct (expandRecurringEvent event rangeStart rangeEnd) as [occurrences | e];
      simpl; [| discriminate].
    intros H Hin. injection H as <-. apply in_map_iff in Hin. destruct Hin as [o [<- Ho]].
    split; [apply String.eqb_eq, Htype |].
    exists occurrences, o. repeat split. exact Ho.
  - intros H Hin. injection H as <-. destruct Hin.
Qed.

(** The records of a successful fetch, traced back to their address. *)
Lemma fetched_from (env : Env) (calendars : list CalendarObject) (events : CalendarObject) :
  traverse (fetchCalendar env) (calendarInputUrls env) = Ok calendars ->
  In events calendars ->
  exists url data,
    In url (calendarInputUrls env) /\
    axios_get env url = Some data /\ parseICS data = Some events.
Proof.
  intros Hfetch Hin.
  destruct (traverse_In_inv _ _ _ _ Hfetch Hin) as [url [Hurl Hf]].
  destruct (fetchCalendar_Ok _ _ _ Hf) as [data [Hget Hics]].
  exists url, data. repeat split; assumption.
Qed.

(** X7.  Every entry of the merged calendar comes from a record of type
    VEVENT of a fetched source and has the record's summary, description and
    location.  When moment-timezone leaves the instant of a Date where it is,
    the entry lasts as long as the record; it starts when the record starts
    if the record has no rule, and strictly inside the window if it has
    one. *)
Theorem entry_provenance (env : Env) (cal : ICalCalendar) (d : EventData) :
  mergedCalendar env = Ok cal ->
  In d (cal_events cal) ->
  exists url data events event,
    In url (calendarInputUrls env) /\
    axios_get env url = Some data /\ parseICS data = Some events /\
    In event (Object_values events) /\
    type event = "VEVENT" /\
    ev_summary d = summary event /\
    ev_description d = description event /\
    ev_location d = location event /\
    ((forall t zone, moment_tz t zone = t) ->
     ev_end d - ev_start d = time (end_ event) - time (start event) /\
     match rrule event with
     | None => ev_start d = time (start event)
     | Some _ => fst (window env) < ev_start d < snd (window env)
     end).
Proof.
  intros Hcal Hin. rewrite mergedCalendar_factor in Hcal.
  destruct (bind_Ok _ _ _ Hcal) as [calendars [Hfetch Hcal']].
  destruct (bind_Ok _ _ _ Hcal') as [perSource [Hper Heq]].
  injection Heq as <-. simpl in Hin.
  apply in_concat in Hin. destruct Hin as [entries [Hentries Hd]].
  destruct (traverse_In_inv _ _ _ _ Hper Hentries) as [events [Hevents Hsource]].
  unfold occurrences_of_source in Hsource.
  destruct (bind_Ok _ _ _ Hsource) as [perEvent [HperEvent Heq]].
  injection Heq as <-.
  apply in_concat in Hd. destruct Hd as [entries' [Hentries' Hd]].
  destruct (traverse_In_inv _ _ _ _ HperEvent Hentries') as [event [Hev Hocc]].
  destruct (occurrences_of_event_In _ _ _ _ _ Hocc Hd)
    as [Htype [occurrences [o [Hexp [Ho ->]]]]].
  destruct (fetched_from _ _ _ Hfetch Hevents) as [url [data [Hurl [Hget Hics]]]].
  exists url, data, events, event.
  split; [exact Hurl |]. split; [exact Hget |]. split; [exact Hics |].
  split; [exact Hev |]. split; [exact Htype |].
  unfold eventData, adjustDate; simpl.
  destruct (expandRecurringEvent_cases _ _ _ _ _ Hexp Ho)
    as [[Hrule ->] | [text [options [t [Hrule [Hparse [Ht ->]]]]]]]; rewrite Hrule; simpl.
  - do 3 (split; [reflexivity |]).
    intros Hsame. rewrite !Hsame. split; reflexivity.
  - apply between_exclusive in Ht. destruct Ht as [_ Ht].
    unfold window in *. simpl in Ht |- *.
    do 3 (split; [reflexivity |]).
    intros Hsame. rewrite !Hsame. split; lia.
Qed.

(** ** What the loop leaves out *)

(** X8.  The records that are no events change nothing: the loop gives the same
    calendar, or the same exception, with and without them. *)
Theorem forEach_skips_other_components (rangeStart rangeEnd : Z)
        (events : list Component) (cal : ICalCalendar) :
  forEach (processEvent rangeStart rangeEnd) events cal =
  forEach (processEvent rangeStart rangeEnd) (filter is_vevent events) cal.
Proof.
  revert cal. induction events as [| event events IH]; intros cal; [reflexivity |].
  simpl. unfold is_vevent at 1. unfold processEvent at 1.
  destruct (type event =? "VEVENT")%string eqn:Htype.
  - simpl. unfold processEvent at 2. rewrite Htype.
    destruct (expandRecurringEvent event rangeStart rangeEnd); simpl; [apply IH | reflexivity].
  - simpl. apply IH.
Qed.

Lemma between_nil (options : Options) (a b : Z) :
  (forall d, occurs options d -> ~ a < d < b) -> between options a b false = [].
Proof.
  intros Hnone. destruct (between options a b false) as [| d l] eqn:Hbetween; [reflexivity |].
  assert (Hin : In d (between options a b false)) by (rewrite Hbetween; left; reflexivity).
  apply between_exclusive in Hin. destruct Hin as [Hd Hbounds].
  destruct (Hnone d Hd Hbounds).
Qed.

Lemma expandRecurringEvent_nil (event : Component) (rangeStart rangeEnd : Z)
      (text : string) (options : Options) :
  rrule event = Some text ->
  parseString text = Some options ->
  between (set_dtstart options (time (start event))) rangeStart rangeEnd false = [] ->
  expandRecurringEvent event rangeStart rangeEnd = Ok [].
Proof.
  intros Hrule Hparse Hnil.
  rewrite (expandRecurringEvent_recurring _ _ _ _ _ Hrule Hparse), Hnil. reflexivity.
Qed.

(** X9.  A recurring event whose rule generates no instant strictly inside the
    window is dropped without an error: the expansion is empty and the
    calendar stays as it was. *)
Theorem expand_nothing_in_window (event : Component) (rangeStart rangeEnd : Z)
        (text : string) (options : Options) (cal : ICalCalendar) :
  type event = "VEVENT" ->
  rrule event = Some text ->
  parseString text = Some options ->
  (forall d, occurs (set_dtstart options (time (start event))) d ->
             ~ rangeStart < d < rangeEnd) ->
  expandRecurringEvent event rangeStart rangeEnd = Ok [] /\
  processEvent rangeStart rangeEnd cal event = Ok cal.
Proof.
  intros Htype Hrule Hparse Hnone.
  assert (Hexp : expandRecurringEvent event rangeStart rangeEnd = Ok []).
  { apply (expandRecurringEvent_nil _ _ _ _ _ Hrule Hparse), between_nil, Hnone. }
  split; [exact Hexp |].
  unfold processEvent. rewrite Htype, Hexp. reflexivity.
Qed.

(** X10.  A window that holds no instant (its end is at most one millisecond after
    its start, or before it) empties every recurring event whose rule text
    parses. *)
Theorem expand_degenerate_window (event : Component) (rangeStart rangeEnd : Z)
        (text : string) (options : Options) :
  rrule event = Some text ->
  parseString text = Some options ->
  rangeEnd <= rangeStart + 1 ->
  expandRecurringEvent event rangeStart rangeEnd = Ok [].
Proof.
  intros Hrule Hparse Hwindow.
  apply (expandRecurringEvent_nil _ _ _ _ _ Hrule Hparse), between_nil.
  intros d _ Hd. lia.
Qed.

Lemma forEach_without_rules (rangeStart rangeEnd : Z) (events : list Component)
      (cal : ICalCalendar) :
  (forall event, In event events -> is_vevent event = true -> rrule event = None) ->
  forEach (processEvent rangeStart rangeEnd) events cal =
  Ok {| cal_name := cal_name cal;
        cal_events := cal_events cal
                      ++ map (fun event => eventData event event) (filter is_vevent events) |}.
Proof.
  revert cal. induction events as [| event events IH]; intros cal Hrules; simpl.
  - rewrite app_nil_r. destruct cal; reflexivity.
  - unfold processEvent at 1. unfold is_vevent at 1.
    destruct (type event =? "VEVENT")%string eqn:Htype.
    + unfold expandRecurringEvent.
      rewrite (Hrules event (or_introl eq_refl) Htype).
      simpl. rewrite IH by (intros ev Hin; apply Hrules; right; exact Hin).
      simpl. rewrite <- app_assoc. reflexivity.
    + simpl. apply IH. intros ev Hin. apply Hrules. right. exact Hin.
Qed.

(** X11.  When no event of the fetched sources has a recurrence rule, a
    merge that returns does not look at the window: its calendar holds one
    entry per record of type VEVENT, in order, with the record's own start
    and end. *)
Theorem merge_without_rules (env : Env) (calendars : list CalendarObject)
        (cal : ICalCalendar) :
  traverse (fetchCalendar env) (calendarInputUrls env) = Ok calendars ->
  (forall event,
      In event (List.concat (map Object_values calendars)) ->
      is_vevent event = true -> rrule event = None) ->
  mergedCalendar env = Ok cal ->
  cal = {| cal_name := calendarName;
           cal_events := map (fun event => eventData event event)
                             (filter is_vevent
                                (List.concat (map Object_values calendars))) |}.
Proof.
  intros Hfetch Hrules Hcal. unfold mergedCalendar in Hcal.
  rewrite Hfetch in Hcal. cbn [bind] in Hcal.
  rewrite (forEach_without_rules _ _ _ (ical calendarName) Hrules) in Hcal.
  injection Hcal as <-. reflexivity.
Qed.

End Causes.

(** ** The further properties at work on the samples *)

Lemma entry_provenance_witness :
  mergedCalendar (rr := daily_rules) (mo := fixed_offset) (ics := samples) Samples.env
  = Ok (spec_merge Samples.expected) /\
  In (Samples.entry 1709366400000 1709367300000 "Standup" (Some "Daily") None)
     (cal_events (spec_merge Samples.expected)) /\
  (forall t zone, moment_tz (MomentPkg := fixed_offset) t zone = t) /\
  exists url data events event,
    In url (calendarInputUrls Samples.env) /\
    axios_get Samples.env url = Some data /\
    parseICS (IcsPkg := samples) data = Some events /\
    In event (Object_values events) /\
    type event = "VEVENT" /\
    summary event = Some "Standup" /\
    description event = Some "Daily" /\
    location event = None /\
    900000 = time (end_ event) - time (start event) /\
    match rrule event with
    | None => 1709366400000 = time (start event)
    | Some _ => fst (window (mo := fixed_offset) Samples.env) < 1709366400000
                < snd (window (mo := fixed_offset) Samples.env)
    end.
Proof.
  assert (Hcal : mergedCalendar (rr := daily_rules) (mo := fixed_offset) (ics := samples)
                   Samples.env = Ok (spec_merge Samples.expected))
    by (vm_compute; reflexivity).
  assert (Hin : In (Samples.entry 1709366400000 1709367300000 "Standup" (Some "Daily") None)
                   (cal_events (spec_merge Samples.expected)))
    by (right; right; left; reflexivity).
  assert (Hsame : forall t zone, moment_tz (MomentPkg := fixed_offset) t zone = t)
    by (intros t zone; reflexivity).
  split; [exact Hcal |]. split; [exact Hin |]. split; [exact Hsame |].
  destruct (entry_provenance (rr := daily_rules) (mo := fixed_offset) (ics := samples)
              Samples.env _ _ Hcal Hin)
    as [url [data [events [event H]]]].
  destruct H as [Hurl [Hget [Hics [Hev [Htype [Hsummary [Hdescription [Hlocation Htimes]]]]]]]].
  destruct (Htimes Hsame) as [Hduration Hstart].
  exists url, data, events, event.
  split; [exact Hurl |]. split; [exact Hget |]. split; [exact Hics |].
  split; [exact Hev |]. split; [exact Htype |].
  split; [symmetry; exact Hsummary |].
  split; [symmetry; exact Hdescription |].
  split; [symmetry; exact Hlocation |].
  split; [exact Hduration | exact Hstart].
Defined.

Lemma expand_nothing_in_window_witness :
  type Samples.standup = "VEVENT" /\
  rrule Samples.standup = Some "FREQ=DAILY;COUNT=3" /\
  parseString (RRulePkg := daily_rules) "FREQ=DAILY;COUNT=3"
  = Some (DailyRules.mkOptions None 3) /\
  (forall d,
      occurs (RRulePkg := daily_rules)
        (set_dtstart (RRulePkg := daily_rules) (DailyRules.mkOptions None 3)
           (time (start Samples.standup))) d ->
      ~ 1735689600000 < d < 1738368000000) /\
  expandRecurringEvent (rr := daily_rules) Samples.standup 1735689600000 1738368000000
  = Ok [] /\
  processEvent (rr := daily_rules) (mo := fixed_offset) 1735689600000 1738368000000
    (ical calendarName) Samples.standup
  = Ok (ical calendarName).
Proof.
  assert (Hnone : forall d,
             occurs (RRulePkg := daily_rules)
               (set_dtstart (RRulePkg := daily_rules) (DailyRules.mkOptions None 3)
                  (time (start Samples.standup))) d ->
             ~ 1735689600000 < d < 1738368000000).
  { intros d Hd. simpl in Hd. destruct Hd as [<- | [<- | [<- | []]]]; lia. }
  split; [reflexivity |]. split; [reflexivity |]. split; [reflexivity |].
  split; [exact Hnone |].
  exact (expand_nothing_in_window (rr := daily_rules) (mo := fixed_offset)
           Samples.standup 1735689600000 1738368000000 "FREQ=DAILY;COUNT=3"
           (DailyRules.mkOptions None 3) (ical calendarName)
           eq_refl eq_refl eq_refl Hnone).
Defined.

Lemma expand_degenerate_window_witness :
  rrule Samples.standup = Some "FREQ=DAILY;COUNT=3" /\
  parseString (RRulePkg := daily_rules) "FREQ=DAILY;COUNT=3"
  = Some (DailyRules.mkOptions None 3) /\
  1709280000000 <= 1709280000000 + 1 /\
  expandRecurringEvent (rr := daily_rules) Samples.standup 1709280000000 1709280000000
  = Ok [].
Proof.
  assert (Hwindow : 1709280000000 <= 1709280000000 + 1) by lia.
  split; [reflexivity |]. split; [reflexivity |]. split; [exact Hwindow |].
  exact (expand_degenerate_window (rr := daily_rules) Samples.standup
           1709280000000 1709280000000 "FREQ=DAILY;COUNT=3"
           (DailyRules.mkOptions None 3) eq_refl eq_refl Hwindow).
Defined.

Lemma merge_without_rules_witness :
  traverse (fetchCalendar (ics := samples) env_without_rules)
           (calendarInputUrls env_without_rules)
  = Ok [Samples.personal; Samples.personal] /\
  (forall event,
      In event (List.concat (map Object_values [Samples.personal; Samples.personal])) ->
      is_vevent event = true -> rrule event = None) /\
  mergedCalendar (rr := daily_rules) (mo := fixed_offset) (ics := samples) env_without_rules
  = Ok (spec_merge
          [ [Samples.entry 1704448800000 1704452400000 "Meeting" None (Some "Room 1")];
            [Samples.entry 1704448800000 1704452400000 "Meeting" None (Some "Room 1")] ]) /\
  spec_merge
    [ [Samples.entry 1704448800000 1704452400000 "Meeting" None (Some "Room 1")];
      [Samples.entry 1704448800000 1704452400000 "Meeting" None (Some "Room 1")] ]
  = {| cal_name := calendarName;
       cal_events :=
         map (fun event => eventData (mo := fixed_offset) event event)
             (filter is_vevent
                (List.concat (map Object_values [Samples.personal; Samples.personal]))) |}.
Proof.
  assert (Hfetch : traverse (fetchCalendar (ics := samples) env_without_rules)
                            (calendarInputUrls env_without_rules)
                   = Ok [Samples.personal; Samples.personal])
    by (vm_compute; reflexivity).
  assert (Hrules : forall event,
             In event (List.concat (map Object_values [Samples.personal; Samples.personal])) ->
             is_vevent event = true -> rrule event = None).
  { intros event Hin _. simpl in Hin.
    destruct Hin as [<- | [<- | [<- | [<- | []]]]]; reflexivity. }
  assert (Hcal : mergedCalendar (rr := daily_rules) (mo := fixed_offset) (ics := samples)
                   env_without_rules
                 = Ok (spec_merge
                         [ [Samples.entry 1704448800000 1704452400000 "Meeting" None
                              (Some "Room 1")];
                           [Samples.entry 1704448800000 1704452400000 "Meeting" None
                              (Some "Room 1")] ]))
    by (vm_compute; reflexivity).
  split; [exact Hfetch |]. split; [exact Hrules |]. split; [exact Hcal |].
  exact (merge_without_rules (rr := daily_rules) (mo := fixed_offset) (ics := samples)
           env_without_rules _ _ Hfetch Hrules Hcal).
Defined.

(** * The entries of the calendar *)

Section Entries.

Context {rr : RRulePkg} {mo : MomentPkg} {ics : IcsPkg}.

(** An entry of the merged calendar, traced back to the record and the
    occurrence it was made from. *)
Lemma entry_origin (env : Env) (cal : ICalCalendar) (d : EventData) :
  mergedCalendar env = Ok cal ->
  In d (cal_events cal) ->
  exists url data events event occurrences o,
    In url (calendarInputUrls env) /\
    axios_get env url = Some data /\ parseICS data = Some events /\
    In event (Object_values events) /\
    type event = "VEVENT" /\
    expandRecurringEvent event (fst (window env)) (snd (window env)) = Ok occurrences /\
    In o occurrences /\
    d = eventData event o.
Proof.
  intros Hcal Hin. rewrite mergedCalendar_factor in Hcal.
  destruct (bind_Ok _ _ _ Hcal) as [calendars [Hfetch Hcal']].
  destruct (bind_Ok _ _ _ Hcal') as [perSource [Hper Heq]].
  injection Heq as <-. simpl in Hin.
  apply in_concat in Hin. destruct Hin as [entries [Hentries Hd]].
  destruct (traverse_In_inv _ _ _ _ Hper Hentries) as [events [Hevents Hsource]].
  unfold occurrences_of_source in Hsource.
  destruct (bind_Ok _ _ _ Hsource) as [perEvent [HperEvent Heq]].
  injection Heq as <-.
  apply in_concat in Hd. destruct Hd as [entries' [Hentries' Hd]].
  destruct (traverse_In_inv _ _ _ _ HperEvent Hentries') as [event [Hev Hocc]].
  destruct (occurrences_of_event_In _ _ _ _ _ Hocc Hd)
    as [Htype [occurrences [o [Hexp [Ho Hdo]]]]].
  destruct (fetched_from _ _ _ Hfetch Hevents) as [url [data [Hurl [Hget Hics]]]].
  exists url, data, events, event, occurrences, o.
  repeat split; assumption.
Qed.

(** C3, amended.  Every entry that the pipeline puts in the calendar, for a
    recurring event or not, comes from a record of type VEVENT of a fetched
    source and lasts exactly as long as that record, to the millisecond; its
    end is after its start exactly when the record's end is after the
    record's start. *)
Theorem entry_keeps_duration (env : Env) (cal : ICalCalendar) (d : EventData) :
  mergedCalendar env = Ok cal ->
  In d (cal_events cal) ->
  exists url data events event,
    In url (calendarInputUrls env) /\
    axios_get env url = Some data /\ parseICS data = Some events /\
    In event (Object_values events) /\
    type event = "VEVENT" /\
    ev_summary d = summary event /\
    ev_description d = description event /\
    ev_location d = location event /\
    ev_end d - ev_start d = time (end_ event) - time (start event) /\
    (ev_start d < ev_end d <-> time (start event) < time (end_ event)).
Proof.
  intros Hcal Hin.
  destruct (entry_origin env cal d Hcal Hin)
    as [url [data [events [event [occurrences [o H]]]]]].
  destruct H as [Hurl [Hget [Hics [Hev [Htype [Hexp [Ho ->]]]]]]].
  exists url, data, events, event.
  split; [exact Hurl |]. split; [exact Hget |]. split; [exact Hics |].
  split; [exact Hev |]. split; [exact Htype |].
  destruct (eventData_instants event o) as [Hstart Hend]. rewrite Hstart, Hend.
  destruct (expand_keeps_duration _ _ _ _ _ Hexp Ho) as [Hduration Horder].
  destruct (expandRecurringEvent_In _ _ _ _ _ Hexp Ho) as [-> | [t ->]]; simpl.
  - repeat split; try reflexivity; lia.
  - simpl in Hduration, Horder. repeat split; try reflexivity; lia.
Qed.


End Entries.

Lemma entry_keeps_duration_witness :
  mergedCalendar (rr := daily_rules) (mo := fixed_offset) (ics := samples) Samples.env
  = Ok (spec_merge Samples.expected) /\
  In (Samples.entry 1709452800000 1709453700000 "Standup" (Some "Daily") None)
     (cal_events (spec_merge Samples.expected)) /\
  exists url data events event,
    In url (calendarInputUrls Samples.env) /\
    axios_get Samples.env url = Some data /\
    parseICS (IcsPkg := samples) data = Some events /\
    In event (Object_values events) /\
    type event = "VEVENT" /\
    Some "Standup" = summary event /\
    Some "Daily" = description event /\
    None = location event /\
    1709453700000 - 1709452800000 = time (end_ event) - time (start event) /\
    (1709452800000 < 1709453700000 <-> time (start event) < time (end_ event)).
Proof.
  assert (Hcal : mergedCalendar (rr := daily_rules) (mo := fixed_offset) (ics := samples)
                   Samples.env = Ok (spec_merge Samples.expected))
    by (vm_compute; reflexivity).
  assert (Hin : In (Samples.entry 1709452800000 1709453700000 "Standup" (Some "Daily") None)
                   (cal_events (spec_merge Samples.expected)))
    by (right; right; right; left; reflexivity).
  split; [exact Hcal |]. split; [exact Hin |].
  exact (entry_keeps_duration (rr := daily_rules) (mo := fixed_offset) (ics := samples)
           Samples.env _ _ Hcal Hin).
Defined.

(** C3 as stated fails: the reminder ends when it starts, and so do the
    entries that the pipeline makes of it. *)
Lemma merged_calendar_holds_empty_interval :
  mergedCalendar (rr := daily_rules) (mo := fixed_offset) (ics := reminders) env_reminders
  = Ok (spec_merge
          [ [Samples.entry 1704448800000 1704448800000 "Reminder" None None];
            [Samples.entry 1704448800000 1704448800000 "Reminder" None None] ]) /\
  ~ ev_start (Samples.entry 1704448800000 1704448800000 "Reminder" None None)
    < ev_end (Samples.entry 1704448800000 1704448800000 "Reminder" None None).
Proof.
  split; [vm_compute; reflexivity |].
  simpl. lia.
Qed.

